(** * FSDecomp: a transparent-decompression overlay over [io/fs]

    A shallow embedding of [fsdecomp.go] (package [fsdecomp]): the path
    resolver [DecompressFS.Open], the per-codec adapters [newGzipFile],
    [newBzip2File], [newZstdFile], [newLz4File], the composite closer
    [multiCloser], the metadata decorator [fileInfoWrapper] /
    [modifyFileInfo] and the directory lister [DecompressFS.ReadDir].

    The underlying [fs.FS], the files it hands out and the four decoder
    packages are external collaborators.  They are parameters of the
    development; every call made on them is recorded in a trace, so that
    statements such as "the raw handle is closed exactly once" or "no
    suffixed variant is consulted" can be read off the trace. *)

From Stdlib Require Import ZArith String Ascii List Lia Bool.
From Stdlib.Strings Require Import Byte.
From stdpp Require Import base option list strings gmap.
Import ListNotations.

Local Open Scope string_scope.
Local Open Scope list_scope.

(** ** [strings.HasSuffix] and [strings.TrimSuffix] *)

(** [len(s) >= len(suffix) && s[len(s)-len(suffix):] == suffix] *)
Definition HasSuffix (s suffix : string) : bool :=
  (String.length suffix <=? String.length s)%nat &&
  String.eqb
    (substring (String.length s - String.length suffix) (String.length suffix) s)
    suffix.

(** [if HasSuffix(s, suffix) { return s[:len(s)-len(suffix)] }; return s] *)
Definition TrimSuffix (s suffix : string) : string :=
  if HasSuffix s suffix
  then substring 0 (String.length s - String.length suffix) s
  else s.

(** ** Errors and results *)

(** Go [error] values.  [PathError] is [*fs.PathError], which wraps the
    cause and is what an [fs.FS] returns from [Open]. *)
Inductive error : Type :=
| ErrNotExist
| ErrPermission
| ErrInvalid
| ErrClosed
| EOF
| ErrShortBuffer
| ErrCodec (msg : string)
| PathError (op path : string) (err : error).

(** [errors.Is(err, fs.ErrNotExist)]: follows the [Unwrap] chain. *)
Fixpoint errors_Is_ErrNotExist (err : error) : bool :=
  match err with
  | ErrNotExist => true
  | PathError _ _ inner => errors_Is_ErrNotExist inner
  | _ => false
  end.

(** A Go result pair [(v, err)]: exactly one of the two is meaningful. *)
Inductive result (A : Type) : Type :=
| OK (v : A)
| Err (err : error).
Arguments OK {A} v.
Arguments Err {A} err.

Definition is_OK {A} (r : result A) : bool :=
  match r with OK _ => true | Err _ => false end.

(** ** Metadata: [fs.FileInfo] and its decorator *)

(** What the store reports for an entry.  [fs.FileMode] is a [uint32],
    [time.Time] is kept as an opaque instant. *)
Record StatRec : Type := {
  st_name : string;
  st_size : Z;
  st_mode : Z;
  st_modtime : Z;
  st_isdir : bool;
  st_sys : option nat
}.

(** The two implementations of [fs.FileInfo] that occur: the store's own
    and [fileInfoWrapper { fs.FileInfo; name string }]. *)
Inductive FileInfo : Type :=
| StoreInfo (st : StatRec)
| fileInfoWrapper (embedded : FileInfo) (name : string).

(** [func (fiw fileInfoWrapper) Name() string { return fiw.name }] *)
Definition Name (fi : FileInfo) : string :=
  match fi with
  | StoreInfo st => st_name st
  | fileInfoWrapper _ name => name
  end.

(** [Size], [Mode], [IsDir] and [Sys] are promoted from the embedded
    value; [ModTime] is forwarded to it explicitly. *)
Fixpoint Size (fi : FileInfo) : Z :=
  match fi with
  | StoreInfo st => st_size st
  | fileInfoWrapper embedded _ => Size embedded
  end.

Fixpoint Mode (fi : FileInfo) : Z :=
  match fi with
  | StoreInfo st => st_mode st
  | fileInfoWrapper embedded _ => Mode embedded
  end.

Fixpoint ModTime (fi : FileInfo) : Z :=
  match fi with
  | StoreInfo st => st_modtime st
  | fileInfoWrapper embedded _ => ModTime embedded
  end.

Fixpoint IsDir (fi : FileInfo) : bool :=
  match fi with
  | StoreInfo st => st_isdir st
  | fileInfoWrapper embedded _ => IsDir embedded
  end.

Fixpoint Sys (fi : FileInfo) : option nat :=
  match fi with
  | StoreInfo st => st_sys st
  | fileInfoWrapper embedded _ => Sys embedded
  end.

Definition modifyFileInfo (info : FileInfo) (newName : string) : FileInfo :=
  fileInfoWrapper info newName.

(** ** Directory entries: [fs.DirEntry] *)

Record StoreDirEntry : Type := {
  de_name : string;
  de_isdir : bool;
  de_type : Z;
  de_info : result FileInfo
}.

(** A listing holds the store's entries and, after rewriting,
    [*fileInfoWrapper] values used as [fs.DirEntry]. *)
Inductive DirEntry : Type :=
| StoreEntry (e : StoreDirEntry)
| WrapperEntry (embedded : FileInfo) (name : string).

Definition DirEntry_Name (entry : DirEntry) : string :=
  match entry with
  | StoreEntry e => de_name e
  | WrapperEntry _ name => name
  end.

Definition DirEntry_IsDir (entry : DirEntry) : bool :=
  match entry with
  | StoreEntry e => de_isdir e
  | WrapperEntry embedded _ => IsDir embedded
  end.

(** [func (fiw fileInfoWrapper) Type() fs.FileMode { return fiw.FileInfo.Mode() }] *)
Definition DirEntry_Type (entry : DirEntry) : Z :=
  match entry with
  | StoreEntry e => de_type e
  | WrapperEntry embedded _ => Mode embedded
  end.

(** ** The trace of calls on the external collaborators *)

Definition handle := nat.

Inductive Codec : Type := Gzip | Bzip2 | Zstd | Lz4.

Inductive Event : Type :=
| EvOpen (path : string)
| EvReadDir (path : string)
| EvInfo (index : nat)
| EvStat (h : handle)
| EvClose (h : handle)
| EvNewReader (c : Codec) (h : handle)
| EvReaderClose (c : Codec) (h : handle).

Definition Trace := list Event.

Definition is_stat (h : handle) (ev : Event) : bool :=
  match ev with EvStat h' => Nat.eqb h h' | _ => false end.

Definition is_close (h : handle) (ev : Event) : bool :=
  match ev with EvClose h' => Nat.eqb h h' | _ => false end.

Definition is_reader_close (h : handle) (ev : Event) : bool :=
  match ev with EvReaderClose _ h' => Nat.eqb h h' | _ => false end.

Definition is_info (i : nat) (ev : Event) : bool :=
  match ev with EvInfo i' => Nat.eqb i i' | _ => false end.

Definition is_open (ev : Event) : bool :=
  match ev with EvOpen _ => true | _ => false end.

Definition count (p : Event -> bool) (tr : Trace) : nat :=
  length (List.filter p tr).

(** ** A state monad over the trace *)

Definition M (A : Type) : Type := Trace -> A * Trace.

#[global] Instance M_ret : MRet M := fun A (a : A) tr => (a, tr).

#[global] Instance M_bind : MBind M :=
  fun A B (k : A -> M B) (m : M A) tr => let (a, tr') := m tr in k a tr'.

Definition emit (ev : Event) : M unit := fun tr => (tt, tr ++ [ev]).

(** ** Files handed out by the store: [fs.File] *)

(** [unread] is what [Read] has still to deliver.  [stat_at k] and
    [close_at k] are the answers to the call made after [k] earlier
    calls of the same kind on this handle, so that a handle may answer
    differently over time. *)
Record File : Type := {
  fid : handle;
  unread : list byte;
  stat_at : nat -> result FileInfo;
  close_at : nat -> option error
}.

Definition File_Stat (f : File) : M (result FileInfo) :=
  fun tr => (stat_at f (count (is_stat (fid f)) tr), tr ++ [EvStat (fid f)]).

Definition File_Close (f : File) : M (option error) :=
  fun tr => (close_at f (count (is_close (fid f)) tr), tr ++ [EvClose (fid f)]).

(** [Read(p)] with [len(p) = n]: the bytes delivered, the error, and the
    file afterwards. *)
Definition File_Read (f : File) (n : nat) : list byte * option error * File :=
  match unread f with
  | [] => ([], Some EOF, f)
  | _ => (take n (unread f), None,
          {| fid := fid f; unread := drop n (unread f);
             stat_at := stat_at f; close_at := close_at f |})
  end.

(** ** The decoder packages *)

(** What a decoder makes of a compressed byte source: the bytes it will
    deliver, the error that ends the stream ([None] for a clean end of
    file), and what releasing it answers. *)
Record DecodedStream : Type := {
  ds_bytes : list byte;
  ds_fault : option error;
  ds_close : option error
}.

(** A decoder object reading from the handle [rsrc]. *)
Record Reader : Type := {
  rcodec : Codec;
  rsrc : handle;
  pending : list byte;
  fault : option error;
  rclose : option error
}.

Definition Reader_Read (r : Reader) (n : nat) : list byte * option error * Reader :=
  match pending r with
  | [] => ([], Some (default EOF (fault r)), r)
  | _ => (take n (pending r), None,
          {| rcodec := rcodec r; rsrc := rsrc r; pending := drop n (pending r);
             fault := fault r; rclose := rclose r |})
  end.

Definition Reader_Close (r : Reader) : M (option error) :=
  _ ← emit (EvReaderClose (rcodec r) (rsrc r)); mret (rclose r).

(** The decoder types of the imported packages that have a [Close]
    method releasing what the decoder holds: [*gzip.Reader] and
    [*zstd.Decoder].  The readers of [compress/bzip2] and [lz4] have
    none. *)
Definition has_Close (c : Codec) : bool :=
  match c with
  | Gzip | Zstd => true
  | Bzip2 | Lz4 => false
  end.

(** The filename suffix of each codec. *)
Definition suffix (c : Codec) : string :=
  match c with
  | Gzip => ".gz"
  | Bzip2 => ".bz2"
  | Zstd => ".zst"
  | Lz4 => ".lz4"
  end.

(** [io.Closer] values that end up in a [decompressFile]: a raw file, a
    decoder, or [multiCloser{c1, c2}]. *)
Inductive Closer : Type :=
| FileCloser (f : File)
| ReaderCloser (r : Reader)
| multiCloser (c1 c2 : Closer).

(** [err1 := mc.c1.Close(); err2 := mc.c2.Close();
     if err1 != nil { return err1 }; return err2] *)
Fixpoint Closer_Close (c : Closer) : M (option error) :=
  match c with
  | FileCloser f => File_Close f
  | ReaderCloser r => Reader_Close r
  | multiCloser c1 c2 =>
      err1 ← Closer_Close c1;
      err2 ← Closer_Close c2;
      mret (match err1 with
            | Some e => Some e
            | None => err2
            end)
  end.

(** ** [decompressFile] and the files [Open] returns *)

Record decompressFile : Type := {
  reader : Reader;
  closer : Closer;
  info : option FileInfo;
  originalFS : File
}.

(** The [fs.File] values [Open] returns: the store's file as it is, or a
    [*decompressFile]. *)
Inductive VFile : Type :=
| StoreFile (f : File)
| DecompressFile (df : decompressFile).

(** [if df.info != nil { return df.info, nil }; return df.originalFS.Stat()] *)
Definition decompressFile_Stat (df : decompressFile) : M (result FileInfo) :=
  match info df with
  | Some fi => mret (OK fi)
  | None => File_Stat (originalFS df)
  end.

Definition decompressFile_Read (df : decompressFile) (n : nat)
  : list byte * option error * decompressFile :=
  let '(p, err, r) := Reader_Read (reader df) n in
  (p, err, {| reader := r; closer := closer df; info := info df;
              originalFS := originalFS df |}).

Definition decompressFile_Close (df : decompressFile) : M (option error) :=
  Closer_Close (closer df).

Definition Stat (vf : VFile) : M (result FileInfo) :=
  match vf with
  | StoreFile f => File_Stat f
  | DecompressFile df => decompressFile_Stat df
  end.

Definition Read (vf : VFile) (n : nat) : list byte * option error * VFile :=
  match vf with
  | StoreFile f => let '(p, err, f') := File_Read f n in (p, err, StoreFile f')
  | DecompressFile df =>
      let '(p, err, df') := decompressFile_Read df n in (p, err, DecompressFile df')
  end.

Definition Close (vf : VFile) : M (option error) :=
  match vf with
  | StoreFile f => File_Close f
  | DecompressFile df => decompressFile_Close df
  end.

(** [io.ReadAll]: read chunk after chunk until an error; [io.EOF] is a
    clean end and is reported as no error. *)
Definition chunk : nat := 512.

Fixpoint ReadAll_loop (fuel : nat) (vf : VFile) (acc : list byte)
  : list byte * option error :=
  match fuel with
  | O => (acc, Some ErrShortBuffer)
  | S fuel' =>
      let '(p, err, vf') := Read vf chunk in
      match err with
      | Some EOF => (acc ++ p, None)
      | Some e => (acc ++ p, Some e)
      | None => ReadAll_loop fuel' vf' (acc ++ p)
      end
  end.

(** The bytes a file has still to deliver. *)
Definition remaining (vf : VFile) : list byte :=
  match vf with
  | StoreFile f => unread f
  | DecompressFile df => pending (reader df)
  end.

Definition ReadAll (vf : VFile) : list byte * option error :=
  ReadAll_loop (S (length (remaining vf))) vf [].

(** ** The overlay over a store and a set of decoders *)

(** The underlying [fs.FS]: [Open], and the listing that
    [fs.ReadDir(fsys, name)] obtains from it. *)
Record FS : Type := {
  fs_Open : string -> result File;
  fs_ReadDir : string -> result (list DirEntry)
}.

Section DecompressFS.

(** What each decoder package makes of a byte source. *)
Variable decode : Codec -> list byte -> result DecodedStream.

(** The wrapped filesystem, [dfs.FS]. *)
Variable fsys : FS.

Definition FS_Open (name : string) : M (result File) :=
  _ ← emit (EvOpen name); mret (fs_Open fsys name).

(** The library call [fs.ReadDir(dfs.FS, name)], as one event.  What the
    library does on the store to obtain the listing is inside that
    event: a store with a [ReadDir] method is asked for it, any other is
    opened, read, sorted by name and closed by the library. *)
Definition FS_ReadDir (name : string) : M (result (list DirEntry)) :=
  _ ← emit (EvReadDir name); mret (fs_ReadDir fsys name).

Definition mkReader (c : Codec) (f : File) (s : DecodedStream) : Reader :=
  {| rcodec := c; rsrc := fid f; pending := ds_bytes s;
     fault := ds_fault s; rclose := ds_close s |}.

(** [gzip.NewReader] and [zstd.NewReader] return [(reader, error)]. *)
Definition NewReader (c : Codec) (f : File) : M (result Reader) :=
  match decode c (unread f) with
  | Err err => mret (Err err)
  | OK s => _ ← emit (EvNewReader c (fid f)); mret (OK (mkReader c f s))
  end.

(** [bzip2.NewReader] and [lz4.NewReader] return a reader only and
    cannot fail.  For a source the decoder rejects, the reader built
    here stands for the first [Read] only, which delivers no bytes and
    reports the fault; how the real readers go on after a failed [Read]
    is not modelled, and no statement below is about it. *)
Definition NewReader_lazy (c : Codec) (f : File) : M Reader :=
  _ ← emit (EvNewReader c (fid f));
  mret (match decode c (unread f) with
        | OK s => mkReader c f s
        | Err err => {| rcodec := c; rsrc := fid f; pending := [];
                        fault := Some err; rclose := None |}
        end).

Definition gzip_NewReader := NewReader Gzip.
Definition bzip2_NewReader := NewReader_lazy Bzip2.
Definition zstd_NewReader := NewReader Zstd.
Definition lz4_NewReader := NewReader_lazy Lz4.

Definition newGzipFile (f : File) : M (result VFile) :=
  r ← gzip_NewReader f;
  match r with
  | Err err => _ ← File_Close f; mret (Err err)
  | OK gzReader =>
      st ← File_Stat f;
      match st with
      | Err err => _ ← File_Close f; mret (Err err)
      | OK info =>
          let modifiedInfo := modifyFileInfo info (TrimSuffix (Name info) ".gz") in
          mret (OK (DecompressFile
            {| reader := gzReader;
               closer := multiCloser (ReaderCloser gzReader) (FileCloser f);
               info := Some modifiedInfo;
               originalFS := f |}))
      end
  end.

Definition newBzip2File (f : File) : M (result VFile) :=
  bzReader ← bzip2_NewReader f;
  st ← File_Stat f;
  match st with
  | Err err => _ ← File_Close f; mret (Err err)
  | OK info =>
      let modifiedInfo := modifyFileInfo info (TrimSuffix (Name info) ".bz2") in
      mret (OK (DecompressFile
        {| reader := bzReader;
           closer := FileCloser f;
           info := Some modifiedInfo;
           originalFS := f |}))
  end.

Definition newZstdFile (f : File) : M (result VFile) :=
  r ← zstd_NewReader f;
  match r with
  | Err err => _ ← File_Close f; mret (Err err)
  | OK zstReader =>
      st ← File_Stat f;
      match st with
      | Err err => _ ← File_Close f; mret (Err err)
      | OK info =>
          let modifiedInfo := modifyFileInfo info (TrimSuffix (Name info) ".zst") in
          mret (OK (DecompressFile
            {| reader := zstReader;
               closer := FileCloser f;
               info := Some modifiedInfo;
               originalFS := f |}))
      end
  end.

Definition newLz4File (f : File) : M (result VFile) :=
  lz4Reader ← lz4_NewReader f;
  st ← File_Stat f;
  match st with
  | Err err => _ ← File_Close f; mret (Err err)
  | OK info =>
      let modifiedInfo := modifyFileInfo info (TrimSuffix (Name info) ".lz4") in
      mret (OK (DecompressFile
        {| reader := lz4Reader;
           closer := FileCloser f;
           info := Some modifiedInfo;
           originalFS := f |}))
  end.

(** [DecompressFS.Open] *)
Definition Open (name : string) : M (result VFile) :=
  r ← FS_Open name;
  match r with
  | OK file => mret (OK (StoreFile file))
  | Err err =>
      if errors_Is_ErrNotExist err then
        gz ← FS_Open (name +:+ ".gz");
        match gz with
        | OK gzFile => newGzipFile gzFile
        | Err _ =>
            bz2 ← FS_Open (name +:+ ".bz2");
            match bz2 with
            | OK bz2File => newBzip2File bz2File
            | Err _ =>
                zst ← FS_Open (name +:+ ".zst");
                match zst with
                | OK zstFile => newZstdFile zstFile
                | Err _ =>
                    lz4 ← FS_Open (name +:+ ".lz4");
                    match lz4 with
                    | OK lz4File => newLz4File lz4File
                    | Err _ => mret (Err err)
                    end
                end
            end
        end
      else mret (Err err)
  end.

(** [entry.Info()]: a store entry fetches its metadata, a
    [fileInfoWrapper] answers with the value it embeds
    ([return fiw.FileInfo, nil]).  [i] is the index of the entry in the
    listing. *)
Definition info_result (entry : DirEntry) : result FileInfo :=
  match entry with
  | StoreEntry e => de_info e
  | WrapperEntry embedded _ => OK embedded
  end.

Definition DirEntry_Info (i : nat) (entry : DirEntry) : M (result FileInfo) :=
  _ ← emit (EvInfo i); mret (info_result entry).

Definition recognized (name : string) : bool :=
  HasSuffix name ".gz" || HasSuffix name ".bz2" ||
  HasSuffix name ".zst" || HasSuffix name ".lz4".

(** The body of [for i, entry := range entries]: [todo] is what the
    range has still to visit, starting at index [i]; [entries] is the
    slice, updated in place by [entries[i] = ...]. *)
Fixpoint ReadDir_loop (todo : list DirEntry) (i : nat) (entries : list DirEntry)
  : M (result (list DirEntry)) :=
  match todo with
  | [] => mret (OK entries)
  | entry :: todo' =>
      if DirEntry_IsDir entry then ReadDir_loop todo' (S i) entries
      else
        r ← DirEntry_Info i entry;
        match r with
        | Err err => mret (Err err)
        | OK info =>
            let name := DirEntry_Name entry in
            if recognized name then
              let newName := TrimSuffix name ".gz" in
              let newName := TrimSuffix newName ".bz2" in
              let newName := TrimSuffix newName ".zst" in
              let newName := TrimSuffix newName ".lz4" in
              ReadDir_loop todo' (S i) (<[i := WrapperEntry info newName]> entries)
            else ReadDir_loop todo' (S i) entries
        end
  end.

(** [DecompressFS.ReadDir] *)
Definition ReadDir (name : string) : M (result (list DirEntry)) :=
  r ← FS_ReadDir name;
  match r with
  | Err err => mret (Err err)
  | OK entries => ReadDir_loop entries 0 entries
  end.

End DecompressFS.

(** ** The registry order and the adapter of each codec *)

(** The order in which [Open] is expected to try the suffixes. *)
Definition probe_order : list Codec := [Gzip; Bzip2; Zstd; Lz4].

(** The adapter bound to each codec. *)
Definition adapt (decode : Codec -> list byte -> result DecodedStream)
    (c : Codec) (f : File) : M (result VFile) :=
  match c with
  | Gzip => newGzipFile decode f
  | Bzip2 => newBzip2File decode f
  | Zstd => newZstdFile decode f
  | Lz4 => newLz4File decode f
  end.

(** The closer each adapter builds. *)
Definition closer_of (c : Codec) (r : Reader) (f : File) : Closer :=
  match c with
  | Gzip => multiCloser (ReaderCloser r) (FileCloser f)
  | Bzip2 | Zstd | Lz4 => FileCloser f
  end.

(** The open attempts on the suffixed variants of [name] for the codecs
    [cs], as they show in the trace. *)
Definition probes (name : string) (cs : list Codec) : Trace :=
  map (fun c => EvOpen (name +:+ suffix c)) cs.

(** The suffixed variant of [name] for codec [c] cannot be opened. *)
Definition fails (fsys : FS) (name : string) (c : Codec) : Prop :=
  is_OK (fs_Open fsys (name +:+ suffix c)) = false.

(** The name [ReadDir] gives to a file entry it rewrites. *)
Definition strip_all (name : string) : string :=
  TrimSuffix (TrimSuffix (TrimSuffix (TrimSuffix name ".gz") ".bz2") ".zst") ".lz4".

(** What a successful listing holds in the place of [entry]. *)
Definition rewritten (entry : DirEntry) : DirEntry :=
  if DirEntry_IsDir entry then entry
  else match info_result entry with
       | OK info =>
           if recognized (DirEntry_Name entry)
           then WrapperEntry info (strip_all (DirEntry_Name entry))
           else entry
       | Err _ => entry
       end.

(** The metadata fetches made while a listing is walked from index [i]:
    one per entry that is not a directory. *)
Fixpoint info_events (i : nat) (entries : list DirEntry) : Trace :=
  match entries with
  | [] => []
  | entry :: entries' =>
      (if DirEntry_IsDir entry then [] else [EvInfo i]) ++ info_events (S i) entries'
  end.

(** The metadata of [entry] can be fetched, should it be asked for. *)
Definition info_available (entry : DirEntry) : Prop :=
  DirEntry_IsDir entry = false -> is_OK (info_result entry) = true.

(** [raw] is an encoding of [content] for codec [c]: the decoder of [c]
    accepts it and delivers exactly [content], ending cleanly. *)
Definition encodes (decode : Codec -> list byte -> result DecodedStream)
    (c : Codec) (raw content : list byte) : Prop :=
  exists s, decode c raw = OK s /\ ds_bytes s = content /\ ds_fault s = None.

(** A path is absent: the store answers [Open] with a not-found error. *)
Definition absent (fsys : FS) (name : string) : Prop :=
  exists err, fs_Open fsys name = Err err /\ errors_Is_ErrNotExist err = true.

(** ** A sample store and sample decoders

    A store in the manner of [fstest.MapFS], and decoders that check a
    magic number and deliver the rest of the source.  They serve as the
    concrete inputs on which the statements below are exercised. *)
Module Sample.

Definition magic (c : Codec) : list byte :=
  match c with
  | Gzip => [x1f; x8b]
  | Bzip2 => [x42; x5a; x68]
  | Zstd => [x28; xb5; x2f; xfd]
  | Lz4 => [x04; x22; x4d; x18]
  end.

Fixpoint strip_magic (m raw : list byte) : option (list byte) :=
  match m, raw with
  | [], _ => Some raw
  | a :: m', b :: raw' => if Byte.eqb a b then strip_magic m' raw' else None
  | _ :: _, [] => None
  end.

Definition decode (c : Codec) (raw : list byte) : result DecodedStream :=
  match strip_magic (magic c) raw with
  | Some payload => OK {| ds_bytes := payload; ds_fault := None; ds_close := None |}
  | None => Err (ErrCodec "invalid header")
  end.

Definition compress (c : Codec) (content : list byte) : list byte :=
  magic c ++ content.

Definition bytes (s : string) : list byte := list_byte_of_string s.

(** The error a map-backed store gives for a name it does not hold. *)
Definition not_found (name : string) : error := PathError "open" name ErrNotExist.

Definition info_of (name : string) (data : list byte) : FileInfo :=
  StoreInfo {| st_name := name; st_size := Z.of_nat (length data);
               st_mode := 420; st_modtime := 1700000000;
               st_isdir := false; st_sys := None |}.

(** A well-behaved open file: [Stat] always answers, the first [Close]
    succeeds and later ones report [ErrClosed]. *)
Definition file (h : handle) (name : string) (data : list byte) : File :=
  {| fid := h; unread := data;
     stat_at := fun _ => OK (info_of name data);
     close_at := fun k => match k with O => None | S _ => Some ErrClosed end |}.

(** An open file whose [Stat] fails. *)
Definition file_nostat (h : handle) (data : list byte) : File :=
  {| fid := h; unread := data;
     stat_at := fun _ => Err ErrPermission;
     close_at := fun k => match k with O => None | S _ => Some ErrClosed end |}.

(** An open file whose [Stat] answers once and fails from then on. *)
Definition file_stat_once (h : handle) (name : string) (data : list byte) : File :=
  {| fid := h; unread := data;
     stat_at := fun k => match k with
                         | O => OK (info_of name data)
                         | S _ => Err ErrClosed
                         end;
     close_at := fun _ => None |}.

Definition MapFS (files : gmap string File) (dirs : gmap string (list DirEntry)) : FS :=
  {| fs_Open := fun name =>
       match files !! name with
       | Some f => OK f
       | None => Err (PathError "open" name ErrNotExist)
       end;
     fs_ReadDir := fun name =>
       match dirs !! name with
       | Some entries => OK entries
       | None => Err (PathError "readdir" name ErrNotExist)
       end |}.

Definition file_entry (name : string) (data : list byte) : DirEntry :=
  StoreEntry {| de_name := name; de_isdir := false; de_type := 0;
                de_info := OK (info_of name data) |}.

Definition dir_entry (name : string) : DirEntry :=
  StoreEntry {| de_name := name; de_isdir := true; de_type := 2147483648;
                de_info := OK (StoreInfo {| st_name := name; st_size := 0;
                                            st_mode := 2147484141;
                                            st_modtime := 1700000000;
                                            st_isdir := true; st_sys := None |}) |}.

(** An entry whose metadata cannot be fetched. *)
Definition broken_entry (name : string) : DirEntry :=
  StoreEntry {| de_name := name; de_isdir := false; de_type := 0;
                de_info := Err (PathError "lstat" name ErrNotExist) |}.

(** [a.txt] next to [a.txt.gz], with different content. *)
Definition both_fs : FS :=
  MapFS {[ "a.txt" := file 1 "a.txt" (bytes "plain");
           "a.txt.gz" := file 2 "a.txt.gz" (compress Gzip (bytes "packed")) ]} ∅.

(** One variant per codec, as in the package's tests. *)
Definition one_each_fs : FS :=
  MapFS {[ "compressed.txt.gz" := file 1 "compressed.txt.gz" (compress Gzip (bytes "gzipped"));
           "archive.txt.bz2" := file 2 "archive.txt.bz2" (compress Bzip2 (bytes "bzip2ed"));
           "zfile.txt.zst" := file 3 "zfile.txt.zst" (compress Zstd (bytes "zstded"));
           "lfile.txt.lz4" := file 4 "lfile.txt.lz4" (compress Lz4 (bytes "lz4ed")) ]} ∅.

(** [a.bz2] holds the bzip2 encoding of "hello", [a.gz] the gzip encoding
    of something else, and [a.lz4] exists too. *)
Definition shadow_fs : FS :=
  MapFS {[ "a.gz" := file 1 "a.gz" (compress Gzip (bytes "other"));
           "a.bz2" := file 2 "a.bz2" (compress Bzip2 (bytes "hello"));
           "a.lz4" := file 3 "a.lz4" (compress Lz4 (bytes "third")) ]} ∅.

(** [a.bz2] and [a.lz4] only. *)
Definition late_fs : FS :=
  MapFS {[ "a.bz2" := file 2 "a.bz2" (compress Bzip2 (bytes "hello"));
           "a.lz4" := file 3 "a.lz4" (compress Lz4 (bytes "third")) ]} ∅.

(** [a.gz] holds a proper encoding, but the open file cannot be stat'ed. *)
Definition nostat_fs : FS :=
  MapFS {[ "a.gz" := file_nostat 1 (compress Gzip (bytes "hello")) ]} ∅.

(** [a.gz] does not start with the gzip magic number. *)
Definition corrupt_fs : FS :=
  MapFS {[ "a.gz" := file 1 "a.gz" (bytes "not gzip") ]} ∅.

(** [a.gz] whose [Stat] answers only once. *)
Definition once_fs : FS :=
  MapFS {[ "a.gz" := file_stat_once 1 "a.gz" (compress Gzip (bytes "hello")) ]} ∅.

(** The literal name is readable by nobody; a [.gz] variant exists. *)
Definition denied_fs : FS :=
  {| fs_Open := fun name =>
       if String.eqb name "secret" then Err (PathError "open" name ErrPermission)
       else if String.eqb name "secret.gz"
            then OK (file 1 "secret.gz" (compress Gzip (bytes "x")))
            else Err (PathError "open" name ErrNotExist);
     fs_ReadDir := fun name => Err (PathError "readdir" name ErrNotExist) |}.

(** Nothing exists under any name; the [.gz] probe fails for another
    reason than the literal lookup. *)
Definition empty_fs : FS :=
  {| fs_Open := fun name =>
       if String.eqb name "nothing.gz" then Err (PathError "open" name ErrPermission)
       else Err (PathError "open" name ErrNotExist);
     fs_ReadDir := fun name => Err (PathError "readdir" name ErrNotExist) |}.

(** The directory of the package's listing test. *)
Definition listing_fs : FS :=
  MapFS ∅ {[ "dir" := [ file_entry "regular.txt" (bytes "regular content");
                        file_entry "compressed.txt.gz" (compress Gzip (bytes "gzipped content"));
                        dir_entry "subdir" ] ]}.

(** A directory holding a file with two stacked suffixes. *)
Definition stacked_fs : FS :=
  MapFS ∅ {[ "dir" := [ file_entry "a.bz2.gz" (compress Gzip (compress Bzip2 (bytes "hello"))) ] ]}.

(** A directory holding a plain file whose metadata cannot be fetched. *)
Definition broken_fs : FS :=
  MapFS ∅ {[ "dir" := [ broken_entry "plain.txt" ] ]}.

(** What a caller gets who opens [name], reads it to the end and asks
    for its name, as the package's tests do. *)
Definition read_through (fsys : FS) (name : string) : option (list byte * string) :=
  match Open decode fsys name [] with
  | (OK vf, tr) =>
      match ReadAll vf, Stat vf tr with
      | (data, None), (OK fi, _) => Some (data, Name fi)
      | _, _ => None
      end
  | (Err _, _) => None
  end.

End Sample.

(** ** An earlier revision of [Open]

    [fsdecomp.go] also holds the revision of the package that knows gzip
    and bzip2 only.  Its adapters are those above. *)
Module Earlier.

Section DecompressFS.

Variable decode : Codec -> list byte -> result DecodedStream.
Variable fsys : FS.

Definition Open (name : string) : M (result VFile) :=
  r ← FS_Open fsys name;
  match r with
  | OK file => mret (OK (StoreFile file))
  | Err err =>
      if errors_Is_ErrNotExist err then
        gz ← FS_Open fsys (name +:+ ".gz");
        match gz with
        | OK gzFile => newGzipFile decode gzFile
        | Err _ =>
            bz2 ← FS_Open fsys (name +:+ ".bz2");
            match bz2 with
            | OK bz2File => newBzip2File decode bz2File
            | Err _ => mret (Err err)
            end
        end
      else mret (Err err)
  end.

End DecompressFS.

End Earlier.

(** ** Further vocabulary for statements *)

(** Events that belong to listing a directory. *)
Definition is_listing (ev : Event) : bool :=
  match ev with
  | EvReadDir _ | EvInfo _ => true
  | _ => false
  end.

(** Closes of whatever kind: of a raw handle or of a decoder. *)
Definition is_any_close (ev : Event) : bool :=
  match ev with
  | EvClose _ | EvReaderClose _ _ => true
  | _ => false
  end.

(** The codecs whose constructor has an error result. *)
Definition eager (c : Codec) : bool :=
  match c with
  | Gzip | Zstd => true
  | Bzip2 | Lz4 => false
  end.

(** The decoder of [c] can be constructed over [f].  Only the
    constructors of gzip and zstd can fail. *)
Definition decoder_constructs (decode : Codec -> list byte -> result DecodedStream)
    (c : Codec) (f : File) : Prop :=
  eager c = true -> is_OK (decode c (unread f)) = true.

(** ** Further sample stores *)
Module Cases.

Import Sample.

(** Decoders whose release fails. *)
Definition decode_bad_close (c : Codec) (raw : list byte) : result DecodedStream :=
  match strip_magic (magic c) raw with
  | Some payload =>
      OK {| ds_bytes := payload; ds_fault := None;
            ds_close := Some (ErrCodec "decoder close") |}
  | None => Err (ErrCodec "invalid header")
  end.

(** An open file whose [Close] always fails. *)
Definition file_bad_close (h : handle) (name : string) (data : list byte) : File :=
  {| fid := h; unread := data;
     stat_at := fun _ => OK (info_of name data);
     close_at := fun _ => Some ErrPermission |}.

Definition bad_close_fs : FS :=
  MapFS {[ "a.gz" := file_bad_close 1 "a.gz" (compress Gzip (bytes "hello")) ]} ∅.

(** [a.bz2] is not a bzip2 stream; [a.lz4] is a proper lz4 stream. *)
Definition malformed_bz2_fs : FS :=
  MapFS {[ "a.bz2" := file 1 "a.bz2" (bytes "not bzip2");
           "a.lz4" := file 2 "a.lz4" (compress Lz4 (bytes "hello")) ]} ∅.

(** [a.gz] is not a gzip stream; [a.bz2] is a proper bzip2 stream. *)
Definition malformed_gz_fs : FS :=
  MapFS {[ "a.gz" := file 1 "a.gz" (bytes "not gzip");
           "a.bz2" := file 2 "a.bz2" (compress Bzip2 (bytes "hello")) ]} ∅.

(** A directory that holds [a.txt] next to [a.txt.gz]. *)
Definition twins : list DirEntry :=
  [ file_entry "a.txt" (bytes "plain");
    file_entry "a.txt.gz" (compress Gzip (bytes "packed")) ].

Definition twins_fs : FS := MapFS ∅ {[ "dir" := twins ]}.

(** A directory whose second entry cannot be stat'ed. *)
Definition half_broken : list DirEntry :=
  [ file_entry "first.gz" (compress Gzip (bytes "one"));
    dir_entry "sub";
    broken_entry "second.txt";
    file_entry "third.gz" (compress Gzip (bytes "three")) ].

Definition half_broken_fs : FS := MapFS ∅ {[ "dir" := half_broken ]}.

(** [a.lz4] holds a proper lz4 stream, but the open file cannot be
    stat'ed. *)
Definition nostat_lz4_fs : FS :=
  MapFS {[ "a.lz4" := file_nostat 4 (compress Lz4 (bytes "hello")) ]} ∅.

(** [a.lz4] only, a proper lz4 stream. *)
Definition lz4_fs : FS :=
  MapFS {[ "a.lz4" := file 4 "a.lz4" (compress Lz4 (bytes "hello")) ]} ∅.

(** [a.zst] whose [Stat] answers only once. *)
Definition once_zst_fs : FS :=
  MapFS {[ "a.zst" := file_stat_once 3 "a.zst" (compress Zstd (bytes "hello")) ]} ∅.

(** [a.zst] only. *)
Definition zst_fs : FS :=
  MapFS {[ "a.zst" := file 1 "a.zst" (compress Zstd (bytes "hello")) ]} ∅.

End Cases.

(** * Properties *)

(** ** Strings *)

Lemma substring_whole (t : string) : substring 0 (String.length t) t = t.
Proof. induction t as [|b t IHt]; simpl; [reflexivity|]. now rewrite IHt. Qed.

Lemma substring_skip_app (s t : string) :
  substring (String.length s) (String.length t) (s +:+ t) = t.
Proof.
  induction s as [|a s IH]; simpl; [|exact IH].
  apply substring_whole.
Qed.

Lemma substring_take_app (s t : string) :
  substring 0 (String.length s) (s +:+ t) = s.
Proof.
  induction s as [|a s IH]; simpl.
  - destruct t; reflexivity.
  - now rewrite IH.
Qed.

Lemma length_append (s t : string) :
  String.length (s +:+ t) = String.length s + String.length t.
Proof. induction s as [|a s IH]; simpl; [reflexivity|]. now rewrite IH. Qed.

Lemma HasSuffix_app (s suf : string) : HasSuffix (s +:+ suf) suf = true.
Proof.
  unfold HasSuffix. rewrite length_append.
  replace (String.length s + String.length suf - String.length suf)
    with (String.length s) by lia.
  rewrite substring_skip_app, String.eqb_refl, andb_true_r.
  apply Nat.leb_le. lia.
Qed.

Lemma TrimSuffix_app (s suf : string) : TrimSuffix (s +:+ suf) suf = s.
Proof.
  unfold TrimSuffix. rewrite HasSuffix_app, length_append.
  replace (String.length s + String.length suf - String.length suf)
    with (String.length s) by lia.
  apply substring_take_app.
Qed.

Lemma TrimSuffix_none (s suf : string) : HasSuffix s suf = false -> TrimSuffix s suf = s.
Proof. intros H. unfold TrimSuffix. now rewrite H. Qed.

(** A string that has a non-empty suffix ends with the last character of
    that suffix. *)
Lemma HasSuffix_last (s suf : string) :
  HasSuffix s suf = true ->
  0 < String.length suf ->
  get (String.length s - 1) s = get (String.length suf - 1) suf.
Proof.
  unfold HasSuffix. intros H Hpos.
  apply andb_true_iff in H as [Hlen Heq].
  apply Nat.leb_le in Hlen. apply String.eqb_eq in Heq.
  transitivity (get (String.length suf - 1)
                  (substring (String.length s - String.length suf) (String.length suf) s));
    [|now rewrite Heq].
  rewrite substring_correct1 by lia.
  f_equal. lia.
Qed.

(** The four suffixes end with four different characters, so a name
    that ends with one of them ends with no other. *)
Lemma HasSuffix_other (base : string) (c c' : Codec) :
  HasSuffix (base +:+ suffix c) (suffix c') = true -> c = c'.
Proof.
  intros H.
  assert (Hc : 0 < String.length (suffix c)) by (destruct c; cbn; lia).
  assert (Hc' : 0 < String.length (suffix c')) by (destruct c'; cbn; lia).
  pose proof (HasSuffix_last _ _ (HasSuffix_app base (suffix c)) Hc) as H1.
  pose proof (HasSuffix_last _ _ H Hc') as H2.
  rewrite H1 in H2. destruct c, c'; cbn in H2; congruence.
Qed.

Lemma recognized_app (base : string) (c : Codec) :
  recognized (base +:+ suffix c) = true.
Proof.
  unfold recognized.
  pose proof (HasSuffix_app base (suffix c)) as H.
  destruct c; cbn [suffix] in *; rewrite H; now rewrite ?orb_true_r.
Qed.

(** A name with one recognized suffix is listed without it. *)
Lemma strip_all_single (base : string) (c : Codec) :
  recognized base = false ->
  strip_all (base +:+ suffix c) = base.
Proof.
  unfold recognized. intros Hbase.
  repeat (apply orb_false_elim in Hbase as [Hbase ?]).
  assert (Hne : forall c', c <> c' ->
            TrimSuffix (base +:+ suffix c) (suffix c') = base +:+ suffix c).
  { intros c' Hcc'. apply TrimSuffix_none.
    destruct (HasSuffix (base +:+ suffix c) (suffix c')) eqn:Hs; [|reflexivity].
    now apply HasSuffix_other in Hs. }
  pose proof (TrimSuffix_app base (suffix c)) as Hhit.
  pose proof (Hne Gzip) as Hgz. pose proof (Hne Bzip2) as Hbz.
  pose proof (Hne Zstd) as Hzs. pose proof (Hne Lz4) as Hlz.
  unfold strip_all. destruct c; cbn [suffix] in *;
    rewrite ?Hgz, ?Hbz, ?Hzs, ?Hlz by discriminate;
    rewrite Hhit; rewrite ?(TrimSuffix_none base) by assumption; reflexivity.
Qed.

(** A name with [.bz2.gz] at its end loses both suffixes. *)
Lemma strip_all_stacked (base : string) :
  strip_all ((base +:+ ".bz2") +:+ ".gz") =
    TrimSuffix (TrimSuffix base ".zst") ".lz4".
Proof. unfold strip_all. now rewrite !TrimSuffix_app. Qed.

(** ** Traces *)

Lemma count_app (p : Event -> bool) (tr1 tr2 : Trace) :
  count p (tr1 ++ tr2) = count p tr1 + count p tr2.
Proof. unfold count. now rewrite List.filter_app, length_app. Qed.

Lemma count_cons (p : Event -> bool) (ev : Event) (tr : Trace) :
  count p (ev :: tr) = (if p ev then 1 else 0) + count p tr.
Proof. unfold count. simpl. now destruct (p ev). Qed.

(** ** Reading a file to its end *)

(** [ReadAll] delivers everything a store file has still to give. *)
Lemma ReadAll_loop_StoreFile (fuel : nat) :
  forall (f : File) (acc : list byte),
    length (unread f) < fuel ->
    ReadAll_loop fuel (StoreFile f) acc = (acc ++ unread f, None).
Proof.
  induction fuel as [|fuel IH]; intros f acc Hlt; [lia|].
  cbn [ReadAll_loop Read]. unfold File_Read.
  destruct (unread f) as [|b l] eqn:Hun.
  - now rewrite !app_nil_r.
  - rewrite IH; cbn [unread].
    + rewrite <- app_assoc. now rewrite take_drop.
    + rewrite length_drop. unfold chunk. cbn [length] in *. lia.
Qed.

(** [ReadAll] delivers everything a decoder has still to give, and
    reports the decoder's fault, if it has one. *)
Lemma ReadAll_loop_DecompressFile (fuel : nat) :
  forall (df : decompressFile) (acc : list byte),
    length (pending (reader df)) < fuel ->
    ReadAll_loop fuel (DecompressFile df) acc =
      (acc ++ pending (reader df),
       match fault (reader df) with
       | Some EOF | None => None
       | Some e => Some e
       end).
Proof.
  induction fuel as [|fuel IH]; intros df acc Hlt; [lia|].
  cbn [ReadAll_loop Read]. unfold decompressFile_Read, Reader_Read.
  destruct (pending (reader df)) as [|b l] eqn:Hp.
  - rewrite !app_nil_r. destruct (fault (reader df)) as [e|]; simpl; [|reflexivity].
    destruct e; reflexivity.
  - rewrite IH; cbn [reader pending fault].
    + rewrite <- app_assoc. now rewrite take_drop.
    + rewrite length_drop. unfold chunk. cbn [length] in *. lia.
Qed.

Lemma ReadAll_StoreFile (f : File) : ReadAll (StoreFile f) = (unread f, None).
Proof. unfold ReadAll. rewrite ReadAll_loop_StoreFile; simpl; [reflexivity|lia]. Qed.

Lemma ReadAll_DecompressFile (df : decompressFile) :
  fault (reader df) = None ->
  ReadAll (DecompressFile df) = (pending (reader df), None).
Proof.
  intros Hf. unfold ReadAll. rewrite ReadAll_loop_DecompressFile; simpl; [|lia].
  now rewrite Hf.
Qed.

(** ** The adapters and the resolver, case by case *)

Section Properties.

Variable decode : Codec -> list byte -> result DecodedStream.
Variable fsys : FS.

Lemma count_stat_after_NewReader (h : handle) (c : Codec) (tr : Trace) :
  count (is_stat h) (tr ++ [EvNewReader c h]) = count (is_stat h) tr.
Proof. unfold count. rewrite List.filter_app, length_app. simpl. lia. Qed.

(** Every run of an adapter is one of three: the decoder cannot be
    constructed, the metadata cannot be fetched, or a [decompressFile]
    is built. *)
Lemma adapt_cases (c : Codec) (f : File) (tr : Trace) :
  (exists e,
      decode c (unread f) = Err e /\ (c = Gzip \/ c = Zstd) /\
      adapt decode c f tr = (Err e, tr ++ [EvClose (fid f)]))
  \/ (exists e,
      stat_at f (count (is_stat (fid f)) tr) = Err e /\
      adapt decode c f tr =
        (Err e, tr ++ [EvNewReader c (fid f); EvStat (fid f); EvClose (fid f)]))
  \/ (exists raw df,
      stat_at f (count (is_stat (fid f)) tr) = OK raw /\
      adapt decode c f tr =
        (OK (DecompressFile df), tr ++ [EvNewReader c (fid f); EvStat (fid f)]) /\
      info df = Some (modifyFileInfo raw (TrimSuffix (Name raw) (suffix c))) /\
      originalFS df = f /\
      rcodec (reader df) = c /\
      rsrc (reader df) = fid f /\
      (forall s, decode c (unread f) = OK s -> reader df = mkReader c f s) /\
      closer df = closer_of c (reader df) f).
Proof.
  destruct c; unfold adapt, newGzipFile, newBzip2File, newZstdFile, newLz4File,
    gzip_NewReader, bzip2_NewReader, zstd_NewReader, lz4_NewReader,
    NewReader, NewReader_lazy, File_Stat, File_Close, emit,
    mbind, M_bind, mret, M_ret.
  all: destruct (decode _ (unread f)) as [s|e] eqn:Hdec; cbn;
    rewrite ?count_stat_after_NewReader;
    try (left; exists e; rewrite <- ?app_assoc; cbn; intuition congruence).
  all: destruct (stat_at f (count (is_stat (fid f)) tr)) as [raw|e'] eqn:Hstat; cbn;
    rewrite <- ?app_assoc; cbn.
  all: try (right; left; exists e'; intuition congruence).
  all: right; right; eexists raw, _; repeat split; cbn; try reflexivity;
    intros s' Hs'; congruence.
Qed.

(** The three outcomes, told by what the adapter meets: a constructor
    that fails, a metadata fetch that fails, or neither. *)
Lemma adapt_eager_fault (c : Codec) (f : File) (tr : Trace) (e : error) :
  eager c = true ->
  decode c (unread f) = Err e ->
  adapt decode c f tr = (Err e, tr ++ [EvClose (fid f)]).
Proof.
  intros Hc Hdec.
  destruct c; try discriminate;
    unfold adapt, newGzipFile, newZstdFile, gzip_NewReader, zstd_NewReader,
      NewReader, File_Close, mbind, M_bind, mret, M_ret;
    now rewrite Hdec.
Qed.

Lemma adapt_stat_fault (c : Codec) (f : File) (tr : Trace) (e : error) :
  decoder_constructs decode c f ->
  stat_at f (count (is_stat (fid f)) tr) = Err e ->
  adapt decode c f tr =
    (Err e, tr ++ [EvNewReader c (fid f); EvStat (fid f); EvClose (fid f)]).
Proof.
  intros Hcons Hstat.
  destruct (adapt_cases c f tr)
    as [(e1 & Hdec & Hc & _)|[(e1 & Hstat' & Hrun)|(raw & df & Hstat' & _)]].
  - unfold decoder_constructs in Hcons. rewrite Hdec in Hcons.
    destruct Hc as [-> | ->]; now specialize (Hcons eq_refl).
  - congruence.
  - congruence.
Qed.

Lemma adapt_success (c : Codec) (f : File) (tr : Trace) (raw : FileInfo) :
  decoder_constructs decode c f ->
  stat_at f (count (is_stat (fid f)) tr) = OK raw ->
  exists df,
    adapt decode c f tr =
      (OK (DecompressFile df), tr ++ [EvNewReader c (fid f); EvStat (fid f)]) /\
    info df = Some (modifyFileInfo raw (TrimSuffix (Name raw) (suffix c))) /\
    originalFS df = f /\
    rcodec (reader df) = c.
Proof.
  intros Hcons Hstat.
  destruct (adapt_cases c f tr)
    as [(e1 & Hdec & Hc & _)|[(e1 & Hstat' & _)|
        (raw' & df & Hstat' & Hrun & Hinfo & Horig & Hcodec & _)]].
  - unfold decoder_constructs in Hcons. rewrite Hdec in Hcons.
    destruct Hc as [-> | ->]; now specialize (Hcons eq_refl).
  - congruence.
  - exists df. rewrite Hstat in Hstat'. injection Hstat' as <-.
    now repeat split.
Qed.

Lemma fails_Err (name : string) (c : Codec) :
  fails fsys name c -> exists e, fs_Open fsys (name +:+ suffix c) = Err e.
Proof.
  unfold fails. destruct (fs_Open fsys (name +:+ suffix c)) as [f|e]; simpl.
  - discriminate.
  - eauto.
Qed.

Lemma Open_literal (name : string) (f : File) (tr : Trace) :
  fs_Open fsys name = OK f ->
  Open decode fsys name tr = (OK (StoreFile f), tr ++ [EvOpen name]).
Proof.
  intros Hlit. unfold Open, FS_Open, emit, mbind, M_bind, mret, M_ret.
  now rewrite Hlit.
Qed.

Lemma Open_fault (name : string) (err : error) (tr : Trace) :
  fs_Open fsys name = Err err ->
  errors_Is_ErrNotExist err = false ->
  Open decode fsys name tr = (Err err, tr ++ [EvOpen name]).
Proof.
  intros Hlit Hne. unfold Open, FS_Open, emit, mbind, M_bind, mret, M_ret.
  now rewrite Hlit, Hne.
Qed.

(** One probe that fails: the resolver moves on. *)
Ltac probe_fails H :=
  apply fails_Err in H; destruct H as [? H]; cbn [suffix] in H;
  rewrite H; cbn.

Ltac probe_hits H :=
  cbn [suffix] in H; rewrite H; cbn.

Lemma Open_probe (name : string) (err : error) (tr : Trace)
    (pre post : list Codec) (c : Codec) (f : File) :
  fs_Open fsys name = Err err ->
  errors_Is_ErrNotExist err = true ->
  probe_order = pre ++ c :: post ->
  Forall (fails fsys name) pre ->
  fs_Open fsys (name +:+ suffix c) = OK f ->
  Open decode fsys name tr =
    adapt decode c f (tr ++ EvOpen name :: probes name (pre ++ [c])).
Proof.
  intros Hlit Hne Hord Hpre Hf.
  unfold Open, FS_Open, emit, mbind, M_bind, mret, M_ret. cbn. rewrite Hlit, Hne.
  unfold probe_order in Hord.
  destruct pre as [|c0 pre]; simplify_eq/=.
  { probe_hits Hf. now rewrite <- app_assoc. }
  apply Forall_cons in Hpre as [Hp0 Hpre]. probe_fails Hp0.
  destruct pre as [|c1 pre]; simplify_eq/=.
  { probe_hits Hf. now rewrite <- !app_assoc. }
  apply Forall_cons in Hpre as [Hp1 Hpre]. probe_fails Hp1.
  destruct pre as [|c2 pre]; simplify_eq/=.
  { probe_hits Hf. now rewrite <- !app_assoc. }
  apply Forall_cons in Hpre as [Hp2 Hpre]. probe_fails Hp2.
  destruct pre as [|c3 pre]; simplify_eq/=.
  { probe_hits Hf. now rewrite <- !app_assoc. }
  destruct pre; simplify_eq/=.
Qed.

Lemma Open_exhausted (name : string) (err : error) (tr : Trace) :
  fs_Open fsys name = Err err ->
  errors_Is_ErrNotExist err = true ->
  Forall (fails fsys name) probe_order ->
  Open decode fsys name tr = (Err err, tr ++ EvOpen name :: probes name probe_order).
Proof.
  intros Hlit Hne Hall.
  unfold Open, FS_Open, emit, mbind, M_bind, mret, M_ret. cbn. rewrite Hlit, Hne.
  unfold probe_order in *.
  apply Forall_cons in Hall as [Hp0 Hall]. probe_fails Hp0.
  apply Forall_cons in Hall as [Hp1 Hall]. probe_fails Hp1.
  apply Forall_cons in Hall as [Hp2 Hall]. probe_fails Hp2.
  apply Forall_cons in Hall as [Hp3 Hall]. probe_fails Hp3.
  cbn. now rewrite <- !app_assoc.
Qed.

(** Each of the four codecs has its place in the registry order. *)
Lemma probe_order_covers (c : Codec) :
  exists pre post, probe_order = pre ++ c :: post.
Proof.
  destruct c.
  - now exists [], [Bzip2; Zstd; Lz4].
  - now exists [Gzip], [Zstd; Lz4].
  - now exists [Gzip; Bzip2], [Lz4].
  - now exists [Gzip; Bzip2; Zstd], [].
Qed.

(** Where the literal name is absent, the registry order splits at the
    first variant that opens, or no variant opens at all. *)
Lemma probe_split (name : string) :
  (exists pre c post f,
      probe_order = pre ++ c :: post /\ Forall (fails fsys name) pre /\
      fs_Open fsys (name +:+ suffix c) = OK f)
  \/ Forall (fails fsys name) probe_order.
Proof.
  assert (Hgen : forall cs,
    (exists pre c post f,
        cs = pre ++ c :: post /\ Forall (fails fsys name) pre /\
        fs_Open fsys (name +:+ suffix c) = OK f)
    \/ Forall (fails fsys name) cs).
  { induction cs as [|c cs IH]; [right; constructor|].
    destruct (fs_Open fsys (name +:+ suffix c)) as [f|e] eqn:Hc.
    - left. exists [], c, cs, f. repeat split; [constructor|exact Hc].
    - assert (Hfail : fails fsys name c) by (unfold fails; now rewrite Hc).
      destruct IH as [(pre & c' & post & f & -> & Hpre & Hf)|Hall].
      + left. exists (c :: pre), c', post, f. repeat split; [|exact Hf].
        now constructor.
      + right. now constructor. }
  apply Hgen.
Qed.

(** A [decompressFile] comes out of [Open] only through an adapter run
    on the first variant that opens. *)
Lemma Open_DecompressFile_inv (name : string) (tr tr' : Trace) (df : decompressFile) :
  Open decode fsys name tr = (OK (DecompressFile df), tr') ->
  exists err pre c post f,
    fs_Open fsys name = Err err /\ errors_Is_ErrNotExist err = true /\
    probe_order = pre ++ c :: post /\ Forall (fails fsys name) pre /\
    fs_Open fsys (name +:+ suffix c) = OK f /\
    adapt decode c f (tr ++ EvOpen name :: probes name (pre ++ [c])) =
      (OK (DecompressFile df), tr').
Proof.
  intros HOpen.
  destruct (fs_Open fsys name) as [f0|err] eqn:Hlit.
  { rewrite (Open_literal _ _ _ Hlit) in HOpen. discriminate. }
  destruct (errors_Is_ErrNotExist err) eqn:Hne.
  2: { rewrite (Open_fault _ _ _ Hlit Hne) in HOpen. discriminate. }
  destruct (probe_split name) as [(pre & c & post & f & Hord & Hpre & Hf)|Hall].
  - exists err, pre, c, post, f. repeat split; try assumption.
    now rewrite <- (Open_probe _ _ _ _ _ _ _ Hlit Hne Hord Hpre Hf).
  - rewrite (Open_exhausted _ _ _ Hlit Hne Hall) in HOpen. discriminate.
Qed.


Lemma count_stat_probes (h : handle) (name : string) (cs : list Codec) (tr : Trace) :
  count (is_stat h) (tr ++ EvOpen name :: probes name cs) = count (is_stat h) tr.
Proof.
  rewrite count_app, count_cons. cbn [is_stat].
  assert (Hp : count (is_stat h) (probes name cs) = 0).
  { induction cs as [|c cs IH]; [reflexivity|].
    cbn [probes map]. rewrite count_cons. exact IH. }
  rewrite Hp. lia.
Qed.

(** Reading does not touch the metadata a [decompressFile] carries. *)
Lemma Read_keeps_info (df : decompressFile) (n : nat) :
  exists p err df',
    Read (DecompressFile df) n = (p, err, DecompressFile df') /\ info df' = info df.
Proof.
  cbn [Read]. unfold decompressFile_Read.
  destruct (Reader_Read (reader df) n) as [[p err] r].
  now eexists p, err, _.
Qed.

(** *** The literal file has priority *)

(** C2. Priority law: where the literal entry exists in the underlying
    store, [Open] returns that entry's raw stream as it is: [Stat],
    reading to the end and [Close] are those of the store's file, so
    nothing is decoded and the name is the store's.  The only call made
    on the store is the open of the literal name: no suffixed variant is
    consulted, whatever else the store holds. *)
Theorem Open_literal_wins (name : string) (f : File) (tr : Trace) :
  fs_Open fsys name = OK f ->
  Open decode fsys name tr = (OK (StoreFile f), tr ++ [EvOpen name]) /\
  (forall tr2, Stat (StoreFile f) tr2 = File_Stat f tr2) /\
  ReadAll (StoreFile f) = (unread f, None) /\
  (forall tr2, Close (StoreFile f) tr2 = File_Close f tr2).
Proof.
  intros Hlit. split; [now apply Open_literal|].
  split; [reflexivity|]. split; [apply ReadAll_StoreFile|reflexivity].
Qed.

(** *** Suffix probing *)


(** *** Errors of [Open] *)

(** C4. Error propagation: an error of the literal open other than
    not-found is returned at once, and no suffixed variant is tried.  A
    not-found error followed by four failing probes is returned as it
    was: the errors of the probes are dropped. *)
Theorem Open_error_propagation (name : string) (err : error) (tr : Trace) :
  fs_Open fsys name = Err err ->
  (errors_Is_ErrNotExist err = false ->
     Open decode fsys name tr = (Err err, tr ++ [EvOpen name])) /\
  (errors_Is_ErrNotExist err = true ->
     Forall (fails fsys name) probe_order ->
     Open decode fsys name tr =
       (Err err, tr ++ EvOpen name :: probes name probe_order)).
Proof.
  intros Hlit. split.
  - intros Hne. now apply Open_fault.
  - intros Hne Hall. now apply Open_exhausted.
Qed.

(** *** No handle is leaked when an adapter fails *)

(** C9. Take the first variant that opens, with raw handle [f].  If the
    decoder cannot be constructed over it (gzip, zstd), or the decoder
    is constructed and the metadata fetch on [f] fails (any codec), then
    [Open] fails with exactly that error, and the events it adds after
    the probes end with the close of [f], which is the only close of
    [f]: once, before the error is returned. *)
Theorem adapter_failure_closes_raw (name : string) (err : error)
    (pre post : list Codec) (c : Codec) (f : File) (tr : Trace) (e : error) :
  fs_Open fsys name = Err err ->
  errors_Is_ErrNotExist err = true ->
  probe_order = pre ++ c :: post ->
  Forall (fails fsys name) pre ->
  fs_Open fsys (name +:+ suffix c) = OK f ->
  (eager c = true /\ decode c (unread f) = Err e) \/
  (decoder_constructs decode c f /\
   stat_at f (count (is_stat (fid f)) tr) = Err e) ->
  exists evs,
    Open decode fsys name tr =
      (Err e, (tr ++ EvOpen name :: probes name (pre ++ [c])) ++ evs) /\
    last evs = Some (EvClose (fid f)) /\
    count (is_close (fid f)) evs = 1 /\
    count (is_close (fid f)) (EvOpen name :: probes name (pre ++ [c])) = 0.
Proof.
  intros Hlit Hne Hord Hpre Hf Hfail.
  rewrite (Open_probe _ _ _ _ _ _ _ Hlit Hne Hord Hpre Hf).
  set (tr0 := tr ++ EvOpen name :: probes name (pre ++ [c])).
  assert (Hnone : count (is_close (fid f)) (EvOpen name :: probes name (pre ++ [c])) = 0).
  { rewrite count_cons. cbn [is_close].
    generalize (pre ++ [c]). intros cs.
    induction cs as [|c' cs IH]; [reflexivity|].
    cbn [probes map]. rewrite count_cons. exact IH. }
  destruct Hfail as [[Hc Hdec]|[Hcons Hstat]].
  - exists [EvClose (fid f)].
    split; [now apply adapt_eager_fault|]. split; [reflexivity|].
    split; [|exact Hnone]. unfold count. cbn. now rewrite Nat.eqb_refl.
  - exists [EvNewReader c (fid f); EvStat (fid f); EvClose (fid f)].
    split.
    { apply adapt_stat_fault; [exact Hcons|].
      unfold tr0. now rewrite count_stat_probes. }
    split; [reflexivity|].
    split; [|exact Hnone]. unfold count. cbn. now rewrite Nat.eqb_refl.
Qed.

(** *** The metadata of a resolved compressed file *)

(** C10. Eager snapshot: take the first variant that opens, of codec
    [c], with raw handle [f], whose decoder can be constructed and whose
    metadata fetch answers [raw] when the file is opened.  Then [Open]
    returns a [decompressFile] over [f]; opening it made exactly one
    [Stat] call on [f]; and every later [Stat] on the returned file, in
    whatever state of the world and also after reads, answers without
    error with the value captured then, [raw] with the suffix of [c]
    stripped from its name, and makes no call on [f], whatever [Stat] on
    [f] would answer by then. *)
Theorem Stat_returns_snapshot (name : string) (err : error)
    (pre post : list Codec) (c : Codec) (f : File) (raw : FileInfo) (tr : Trace) :
  fs_Open fsys name = Err err ->
  errors_Is_ErrNotExist err = true ->
  probe_order = pre ++ c :: post ->
  Forall (fails fsys name) pre ->
  fs_Open fsys (name +:+ suffix c) = OK f ->
  decoder_constructs decode c f ->
  stat_at f (count (is_stat (fid f)) tr) = OK raw ->
  exists df tr',
    Open decode fsys name tr = (OK (DecompressFile df), tr') /\
    originalFS df = f /\
    count (is_stat (fid f)) tr' = S (count (is_stat (fid f)) tr) /\
    let captured := modifyFileInfo raw (TrimSuffix (Name raw) (suffix c)) in
    (forall tr2, Stat (DecompressFile df) tr2 = (OK captured, tr2)) /\
    (forall n tr2 p rerr vf',
        Read (DecompressFile df) n = (p, rerr, vf') ->
        Stat vf' tr2 = (OK captured, tr2)).
Proof.
  intros Hlit Hne Hord Hpre Hf Hcons Hstat.
  rewrite (Open_probe _ _ _ _ _ _ _ Hlit Hne Hord Hpre Hf).
  set (tr0 := tr ++ EvOpen name :: probes name (pre ++ [c])).
  assert (Hstat0 : stat_at f (count (is_stat (fid f)) tr0) = OK raw)
    by (unfold tr0; now rewrite count_stat_probes).
  destruct (adapt_success c f tr0 raw Hcons Hstat0)
    as (df & Hrun & Hinfo & Horig & _).
  exists df, (tr0 ++ [EvNewReader c (fid f); EvStat (fid f)]).
  split; [exact Hrun|]. split; [exact Horig|]. split.
  { rewrite count_app. unfold tr0. rewrite count_stat_probes.
    unfold count. cbn. rewrite Nat.eqb_refl. cbn. lia. }
  cbn zeta. split.
  - intros tr2. cbn [Stat]. unfold decompressFile_Stat. now rewrite Hinfo.
  - intros n tr2 p rerr vf' HRead.
    destruct (Read_keeps_info df n) as (p' & rerr' & df2 & HRead' & Hkeep).
    rewrite HRead' in HRead. simplify_eq.
    cbn [Stat]. unfold decompressFile_Stat. now rewrite Hkeep, Hinfo.
Qed.

(** C8. Metadata frame: take the first variant that opens, of codec
    [c], with raw handle [f], whose decoder can be constructed and whose
    metadata fetch answers [raw], the metadata of the compressed entry.
    Then [Open] succeeds, and the metadata the returned file reports is
    [raw] in every field: size (the compressed size), mode, modification
    time, directory flag and system value.  Only the name differs: it is
    the name of [raw] with the suffix of [c] stripped. *)
Theorem Stat_metadata_frame (name : string) (err : error)
    (pre post : list Codec) (c : Codec) (f : File) (raw : FileInfo) (tr : Trace) :
  fs_Open fsys name = Err err ->
  errors_Is_ErrNotExist err = true ->
  probe_order = pre ++ c :: post ->
  Forall (fails fsys name) pre ->
  fs_Open fsys (name +:+ suffix c) = OK f ->
  decoder_constructs decode c f ->
  stat_at f (count (is_stat (fid f)) tr) = OK raw ->
  exists vf tr' m,
    Open decode fsys name tr = (OK vf, tr') /\
    (forall tr2, Stat vf tr2 = (OK m, tr2)) /\
    Name m = TrimSuffix (Name raw) (suffix c) /\
    (forall base, Name raw = base +:+ suffix c -> Name m = base) /\
    Size m = Size raw /\
    Mode m = Mode raw /\
    ModTime m = ModTime raw /\
    IsDir m = IsDir raw /\
    Sys m = Sys raw.
Proof.
  intros Hlit Hne Hord Hpre Hf Hcons Hstat.
  rewrite (Open_probe _ _ _ _ _ _ _ Hlit Hne Hord Hpre Hf).
  set (tr0 := tr ++ EvOpen name :: probes name (pre ++ [c])).
  assert (Hstat0 : stat_at f (count (is_stat (fid f)) tr0) = OK raw)
    by (unfold tr0; now rewrite count_stat_probes).
  destruct (adapt_success c f tr0 raw Hcons Hstat0)
    as (df & Hrun & Hinfo & _).
  exists (DecompressFile df), (tr0 ++ [EvNewReader c (fid f); EvStat (fid f)]),
    (modifyFileInfo raw (TrimSuffix (Name raw) (suffix c))).
  split; [exact Hrun|]. split.
  { intros tr2. cbn [Stat]. unfold decompressFile_Stat. now rewrite Hinfo. }
  split; [reflexivity|]. split.
  { intros base Hbase. cbn [modifyFileInfo Name]. rewrite Hbase.
    apply TrimSuffix_app. }
  repeat split.
Qed.

(** *** Round trip *)

(** C1 (as amended). Where the literal name is absent, no variant with
    an earlier suffix opens, [name+suffix] opens and holds an encoding of
    [content] for the codec of that suffix, and the metadata of the
    opened stream can be fetched, [Open] succeeds and reading the file
    it returns to the end yields exactly [content]. *)
Theorem Open_roundtrip (name : string) (pre post : list Codec) (c : Codec)
    (f : File) (raw : FileInfo) (content : list byte) (tr : Trace) :
  absent fsys name ->
  probe_order = pre ++ c :: post ->
  Forall (fails fsys name) pre ->
  fs_Open fsys (name +:+ suffix c) = OK f ->
  encodes decode c (unread f) content ->
  stat_at f (count (is_stat (fid f)) tr) = OK raw ->
  exists vf tr',
    Open decode fsys name tr = (OK vf, tr') /\
    ReadAll vf = (content, None).
Proof.
  intros (err & Hlit & Hne) Hord Hpre Hf (s & Hdec & Hbytes & Hfault) Hstat.
  rewrite (Open_probe _ _ _ _ _ _ _ Hlit Hne Hord Hpre Hf).
  set (tr0 := tr ++ EvOpen name :: probes name (pre ++ [c])) in *.
  assert (Hstat0 : stat_at f (count (is_stat (fid f)) tr0) = OK raw)
    by (unfold tr0; now rewrite count_stat_probes).
  destruct (adapt_cases c f tr0)
    as [(e1 & Hdec' & _)|[(e1 & Hstat' & _)|
        (raw' & df & _ & Hrun & _ & _ & _ & _ & Hreader & _)]];
    [congruence|congruence|].
  exists (DecompressFile df), (tr0 ++ [EvNewReader c (fid f); EvStat (fid f)]).
  split; [exact Hrun|].
  specialize (Hreader s Hdec).
  rewrite ReadAll_DecompressFile; rewrite Hreader; cbn; congruence.
Qed.

(** ** The directory lister *)

Lemma ReadDir_loop_ok (todo : list DirEntry) :
  forall (done : list DirEntry) (tr : Trace),
    Forall info_available todo ->
    ReadDir_loop todo (length done) (done ++ todo) tr =
      (OK (done ++ (rewritten <$> todo)), tr ++ info_events (length done) todo).
Proof.
  induction todo as [|entry todo IH]; intros done tr Hall.
  - cbn. now rewrite !app_nil_r.
  - apply Forall_cons in Hall as [Hentry Hall].
    assert (Hnext : forall w tr1,
      ReadDir_loop todo (S (length done)) (done ++ w :: todo) tr1 =
        (OK (done ++ w :: (rewritten <$> todo)),
         tr1 ++ info_events (S (length done)) todo)).
    { intros w tr1. specialize (IH (done ++ [w]) tr1 Hall).
      rewrite length_app, Nat.add_1_r, <- !app_assoc in IH. exact IH. }
    cbn [ReadDir_loop info_events fmap list_fmap]. unfold rewritten at 1.
    destruct (DirEntry_IsDir entry) eqn:Hdir.
    + rewrite Hnext. reflexivity.
    + unfold DirEntry_Info, emit, mbind, M_bind, mret, M_ret.
      specialize (Hentry Hdir).
      destruct (info_result entry) as [fi|e]; [|discriminate].
      destruct (recognized (DirEntry_Name entry)).
      * rewrite insert_app_r_alt, Nat.sub_diag by lia. cbn [insert list_insert].
        rewrite Hnext. now rewrite <- app_assoc.
      * rewrite Hnext. now rewrite <- app_assoc.
Qed.

Lemma ReadDir_ok (name : string) (entries : list DirEntry) (tr : Trace) :
  fs_ReadDir fsys name = OK entries ->
  Forall info_available entries ->
  ReadDir fsys name tr =
    (OK (rewritten <$> entries), tr ++ EvReadDir name :: info_events 0 entries).
Proof.
  intros Hdir Hall. unfold ReadDir, FS_ReadDir, emit, mbind, M_bind, mret, M_ret.
  rewrite Hdir.
  pose proof (ReadDir_loop_ok entries [] (tr ++ [EvReadDir name]) Hall) as Hloop.
  cbn [length app] in Hloop. rewrite Hloop. now rewrite <- app_assoc.
Qed.

Lemma ReadDir_store_error (name : string) (err : error) (tr : Trace) :
  fs_ReadDir fsys name = Err err ->
  ReadDir fsys name tr = (Err err, tr ++ [EvReadDir name]).
Proof.
  intros Hdir. unfold ReadDir, FS_ReadDir, emit, mbind, M_bind, mret, M_ret.
  now rewrite Hdir.
Qed.

Lemma count_info_single (i j : nat) :
  count (is_info j) [EvInfo i] = if Nat.eqb j i then 1 else 0.
Proof. unfold count. cbn [List.filter is_info]. now destruct (Nat.eqb j i). Qed.

Lemma info_events_below (entries : list DirEntry) :
  forall i j, j < i -> count (is_info j) (info_events i entries) = 0.
Proof.
  induction entries as [|entry entries IH]; intros i j Hlt; [reflexivity|].
  cbn [info_events]. rewrite count_app, IH by lia.
  destruct (DirEntry_IsDir entry); [reflexivity|].
  rewrite count_info_single. destruct (Nat.eqb_spec j i); [lia|reflexivity].
Qed.

(** No metadata is fetched for a directory. *)
Lemma info_events_dir (entries : list DirEntry) :
  forall i k e,
    entries !! k = Some e -> DirEntry_IsDir e = true ->
    count (is_info (i + k)) (info_events i entries) = 0.
Proof.
  induction entries as [|entry entries IH]; intros i k e Hk Hdir; [reflexivity|].
  cbn [info_events]. rewrite count_app. destruct k as [|k].
  - cbn in Hk. simplify_eq. rewrite Hdir, Nat.add_0_r.
    rewrite info_events_below by lia. reflexivity.
  - cbn in Hk. replace (i + S k) with (S i + k) by lia.
    rewrite (IH (S i) k e Hk Hdir).
    destruct (DirEntry_IsDir entry); [reflexivity|].
    rewrite count_info_single. destruct (Nat.eqb_spec (S i + k) i); [lia|reflexivity].
Qed.

(** What a rewritten entry shows: the directory flag, the mode and the
    modification time of the metadata it embeds. *)
Lemma WrapperEntry_fields (fi : FileInfo) (name : string) :
  DirEntry_Name (WrapperEntry fi name) = name /\
  DirEntry_IsDir (WrapperEntry fi name) = IsDir fi /\
  DirEntry_Type (WrapperEntry fi name) = Mode fi /\
  info_result (WrapperEntry fi name) = OK fi.
Proof. repeat split. Qed.

(** A file with one recognized suffix is listed under its name without
    the suffix, and shows the directory flag, the mode and the
    modification time of its own metadata. *)
Lemma rewritten_single_suffix (e : DirEntry) (base : string) (c : Codec) (fi : FileInfo) :
  DirEntry_IsDir e = false ->
  DirEntry_Name e = base +:+ suffix c ->
  recognized base = false ->
  info_result e = OK fi ->
  rewritten e = WrapperEntry fi base /\
  DirEntry_IsDir (rewritten e) = IsDir fi /\
  (exists fi', info_result (rewritten e) = OK fi' /\
               Mode fi' = Mode fi /\ ModTime fi' = ModTime fi).
Proof.
  intros Hdir Hname Hbase Hfi.
  assert (Hrw : rewritten e = WrapperEntry fi base).
  { unfold rewritten. rewrite Hdir, Hfi, Hname, recognized_app.
    now rewrite strip_all_single. }
  rewrite Hrw. split; [reflexivity|]. split; [reflexivity|].
  exists fi. now repeat split.
Qed.

(** C7 (as amended). Where the underlying listing succeeds and the
    metadata of every entry that is not a directory can be fetched, the
    overlay's listing succeeds and has the underlying entries in their
    order: every directory is passed through as it is and its metadata
    is not fetched, every file without a recognized suffix is passed
    through as it is, and every file with a recognized suffix is
    replaced, at its position, by a rewritten entry. *)
Theorem ReadDir_passes_through (name : string) (entries : list DirEntry) (tr : Trace) :
  fs_ReadDir fsys name = OK entries ->
  Forall info_available entries ->
  exists out tr',
    ReadDir fsys name tr = (OK out, tr') /\
    length out = length entries /\
    (forall i e, entries !! i = Some e -> DirEntry_IsDir e = true ->
       out !! i = Some e /\ count (is_info i) tr' = count (is_info i) tr) /\
    (forall i e, entries !! i = Some e -> DirEntry_IsDir e = false ->
       recognized (DirEntry_Name e) = false -> out !! i = Some e) /\
    (forall i e, entries !! i = Some e -> DirEntry_IsDir e = false ->
       recognized (DirEntry_Name e) = true ->
       exists fi, info_result e = OK fi /\
                  out !! i = Some (WrapperEntry fi (strip_all (DirEntry_Name e)))).
Proof.
  intros Hdir Hall.
  exists (rewritten <$> entries), (tr ++ EvReadDir name :: info_events 0 entries).
  split; [now apply ReadDir_ok|]. split; [apply length_fmap|].
  split; [|split].
  - intros i e Hi He. split.
    + rewrite list_lookup_fmap, Hi. cbn. unfold rewritten. now rewrite He.
    + rewrite count_app, count_cons. cbn [is_info].
      pose proof (info_events_dir entries 0 i e Hi He) as Hnone.
      cbn in Hnone. rewrite Hnone. lia.
  - intros i e Hi He Hrec.
    rewrite list_lookup_fmap, Hi. cbn. unfold rewritten. rewrite He, Hrec.
    now destruct (info_result e).
  - intros i e Hi He Hrec.
    pose proof (Forall_lookup_1 _ _ _ _ Hall Hi He) as Hav.
    destruct (info_result e) as [fi|err] eqn:Hfi; [|discriminate].
    exists fi. split; [reflexivity|].
    rewrite list_lookup_fmap, Hi. cbn. unfold rewritten. now rewrite He, Hfi, Hrec.
Qed.

(** ** Closing *)

(** [multiCloser] closes both, in order, whatever the first answers, and
    reports the first error. *)
Lemma multiCloser_Close (c1 c2 : Closer) (tr : Trace) :
  Closer_Close (multiCloser c1 c2) tr =
    let (err1, tr1) := Closer_Close c1 tr in
    let (err2, tr2) := Closer_Close c2 tr1 in
    (match err1 with Some e => Some e | None => err2 end, tr2).
Proof.
  cbn [Closer_Close]. unfold mbind, M_bind, mret, M_ret.
  destruct (Closer_Close c1 tr) as [err1 tr1].
  now destruct (Closer_Close c2 tr1) as [err2 tr2].
Qed.

(** What [Close] does on the file an adapter built: for gzip the decoder
    is released and then the raw handle is closed; for the three other
    codecs the raw handle is closed and nothing else is done. *)
Lemma Close_adapted (c : Codec) (f : File) (tr trA : Trace) (df : decompressFile) :
  adapt decode c f tr = (OK (DecompressFile df), trA) ->
  forall tr2,
    Close (DecompressFile df) tr2 =
      match c with
      | Gzip =>
          (match rclose (reader df) with
           | Some e => Some e
           | None => close_at f (count (is_close (fid f)) tr2)
           end,
           tr2 ++ [EvReaderClose Gzip (fid f); EvClose (fid f)])
      | Bzip2 | Zstd | Lz4 =>
          (close_at f (count (is_close (fid f)) tr2), tr2 ++ [EvClose (fid f)])
      end.
Proof.
  intros Hrun tr2.
  destruct (adapt_cases c f tr)
    as [(e1 & _ & _ & Hrun')|[(e1 & _ & Hrun')|
        (raw & df' & _ & Hrun' & _ & _ & Hcodec & Hsrc & _ & Hcloser)]];
    rewrite Hrun' in Hrun; simplify_eq.
  cbn [Close]. unfold decompressFile_Close. rewrite Hcloser.
  destruct (rcodec (reader df)) eqn:Hc; cbn [closer_of Closer_Close]; try reflexivity.
  unfold Reader_Close, File_Close, emit, mbind, M_bind, mret, M_ret.
  rewrite Hsrc, Hc, count_app, <- app_assoc. cbn [app].
  replace (count (is_close (fid f)) [EvReaderClose Gzip (fid f)]) with 0 by reflexivity.
  rewrite Nat.add_0_r. reflexivity.
Qed.

End Properties.

(** ** The statements on the sample store *)

Import Sample.

Lemma Open_literal_wins_witness :
  fs_Open both_fs "a.txt" = OK (file 1 "a.txt" (bytes "plain")) /\
  is_OK (fs_Open both_fs "a.txt.gz") = true /\
  Open decode both_fs "a.txt" [] =
    (OK (StoreFile (file 1 "a.txt" (bytes "plain"))), [EvOpen "a.txt"]) /\
  ReadAll (StoreFile (file 1 "a.txt" (bytes "plain"))) = (bytes "plain", None).
Proof.
  assert (Hlit : fs_Open both_fs "a.txt" = OK (file 1 "a.txt" (bytes "plain")))
    by (vm_compute; reflexivity).
  destruct (Open_literal_wins decode both_fs "a.txt" _ [] Hlit)
    as (HOpen & _ & HRead & _).
  split; [exact Hlit|]. split; [vm_compute; reflexivity|].
  split; [exact HOpen|exact HRead].
Defined.


Lemma Open_error_propagation_witness :
  Open decode denied_fs "secret" [] =
    (Err (PathError "open" "secret" ErrPermission), [EvOpen "secret"]) /\
  fs_Open empty_fs "nothing.gz" = Err (PathError "open" "nothing.gz" ErrPermission) /\
  Open decode empty_fs "nothing" [] =
    (Err (not_found "nothing"),
     [EvOpen "nothing"; EvOpen "nothing.gz"; EvOpen "nothing.bz2";
      EvOpen "nothing.zst"; EvOpen "nothing.lz4"]).
Proof.
  split; [|split; [reflexivity|]].
  - refine (proj1 (Open_error_propagation decode denied_fs "secret" _ [] _) _);
      reflexivity.
  - refine (proj2 (Open_error_propagation decode empty_fs "nothing" _ [] _) _ _);
      try reflexivity.
    repeat constructor.
Defined.

Lemma adapter_failure_closes_raw_witness :
  (exists evs,
     Open decode corrupt_fs "a" [] =
       (Err (ErrCodec "invalid header"), [EvOpen "a"; EvOpen "a.gz"] ++ evs) /\
     last evs = Some (EvClose 1) /\
     count (is_close 1) evs = 1 /\
     count (is_close 1) [EvOpen "a"; EvOpen "a.gz"] = 0) /\
  (exists evs,
     Open decode Cases.nostat_lz4_fs "a" [] =
       (Err ErrPermission,
        [EvOpen "a"; EvOpen "a.gz"; EvOpen "a.bz2"; EvOpen "a.zst"; EvOpen "a.lz4"]
          ++ evs) /\
     last evs = Some (EvClose 4) /\
     count (is_close 4) evs = 1 /\
     count (is_close 4)
       [EvOpen "a"; EvOpen "a.gz"; EvOpen "a.bz2"; EvOpen "a.zst"; EvOpen "a.lz4"] = 0).
Proof.
  split.
  - refine (adapter_failure_closes_raw decode corrupt_fs "a" (not_found "a")
              [] [Bzip2; Zstd; Lz4] Gzip (file 1 "a.gz" (bytes "not gzip")) []
              (ErrCodec "invalid header") _ _ _ _ _ _).
    + vm_compute; reflexivity.
    + reflexivity.
    + reflexivity.
    + constructor.
    + vm_compute; reflexivity.
    + left. split; [reflexivity|vm_compute; reflexivity].
  - refine (adapter_failure_closes_raw decode Cases.nostat_lz4_fs "a" (not_found "a")
              [Gzip; Bzip2; Zstd] [] Lz4
              (file_nostat 4 (compress Lz4 (bytes "hello"))) []
              ErrPermission _ _ _ _ _ _).
    + vm_compute; reflexivity.
    + reflexivity.
    + reflexivity.
    + repeat constructor.
    + vm_compute; reflexivity.
    + right. split; [intros H; discriminate H|reflexivity].
Defined.

Lemma Stat_returns_snapshot_witness :
  exists df tr',
    Open decode Cases.once_zst_fs "a" [] = (OK (DecompressFile df), tr') /\
    originalFS df = file_stat_once 3 "a.zst" (compress Zstd (bytes "hello")) /\
    fst (File_Stat (originalFS df) tr') = Err ErrClosed /\
    count (is_stat 3) tr' = 1 /\
    forall tr2,
      Stat (DecompressFile df) tr2 =
        (OK (fileInfoWrapper (info_of "a.zst" (compress Zstd (bytes "hello"))) "a"),
         tr2).
Proof.
  destruct (Stat_returns_snapshot decode Cases.once_zst_fs "a" (not_found "a")
              [Gzip; Bzip2] [Lz4] Zstd
              (file_stat_once 3 "a.zst" (compress Zstd (bytes "hello")))
              (info_of "a.zst" (compress Zstd (bytes "hello"))) [])
    as (df & tr' & HOpen & Horig & Hcount & HStat & _).
  - vm_compute; reflexivity.
  - reflexivity.
  - reflexivity.
  - repeat constructor.
  - vm_compute; reflexivity.
  - intros _. vm_compute; reflexivity.
  - reflexivity.
  - exists df, tr'. split; [exact HOpen|]. split; [exact Horig|].
    split.
    { rewrite Horig. unfold File_Stat. cbn [fst fid].
      change (count (is_stat 3) tr') with
        (count (is_stat (fid (file_stat_once 3 "a.zst" (compress Zstd (bytes "hello"))))) tr').
      rewrite Hcount. reflexivity. }
    split; [exact Hcount|exact HStat].
Defined.

Lemma Stat_metadata_frame_witness :
  exists vf tr' m,
    Open decode one_each_fs "lfile.txt" [] = (OK vf, tr') /\
    (forall tr2, Stat vf tr2 = (OK m, tr2)) /\
    Name m = "lfile.txt" /\
    Size m = 9%Z /\
    length (fst (ReadAll vf)) = 5.
Proof.
  destruct (Stat_metadata_frame decode one_each_fs "lfile.txt" (not_found "lfile.txt")
              [Gzip; Bzip2; Zstd] [] Lz4
              (file 4 "lfile.txt.lz4" (compress Lz4 (bytes "lz4ed")))
              (info_of "lfile.txt.lz4" (compress Lz4 (bytes "lz4ed"))) [])
    as (vf & tr' & m & HOpen & HStat & _ & Hname & Hsize & _).
  - vm_compute; reflexivity.
  - reflexivity.
  - reflexivity.
  - repeat constructor; vm_compute; reflexivity.
  - vm_compute; reflexivity.
  - intros H; discriminate H.
  - reflexivity.
  - exists vf, tr', m. split; [exact HOpen|]. split; [exact HStat|].
    split; [exact (Hname "lfile.txt" eq_refl)|].
    split; [rewrite Hsize; reflexivity|].
    vm_compute in HOpen. injection HOpen as <- _. vm_compute. reflexivity.
Defined.

Lemma Open_roundtrip_witness :
  exists vf tr',
    Open decode late_fs "a" [] = (OK vf, tr') /\
    ReadAll vf = (bytes "hello", None).
Proof.
  refine (Open_roundtrip decode late_fs "a" [Gzip] [Zstd; Lz4] Bzip2
            (file 2 "a.bz2" (compress Bzip2 (bytes "hello")))
            (info_of "a.bz2" (compress Bzip2 (bytes "hello")))
            (bytes "hello") [] _ _ _ _ _ _).
  - exists (not_found "a"). split; [vm_compute; reflexivity|reflexivity].
  - reflexivity.
  - constructor; [vm_compute; reflexivity|constructor].
  - vm_compute; reflexivity.
  - eexists. split; [vm_compute; reflexivity|]. split; reflexivity.
  - reflexivity.
Defined.

(** C1 as stated fails on two stores.  In the first, [a.bz2] holds the
    bzip2 encoding of "hello" and the literal [a] is absent, but [a.gz]
    exists too and is probed first: [Open] yields its content.  In the
    second, [a.gz] holds the gzip encoding of "hello", but the metadata
    of the opened stream cannot be fetched: [Open] fails. *)
Lemma Open_roundtrip_fails_as_stated :
  (absent shadow_fs "a" /\
   (exists f, fs_Open shadow_fs ("a" +:+ suffix Bzip2) = OK f /\
              encodes decode Bzip2 (unread f) (bytes "hello")) /\
   ~ exists vf tr',
       Open decode shadow_fs "a" [] = (OK vf, tr') /\
       ReadAll vf = (bytes "hello", None)) /\
  (absent nostat_fs "a" /\
   (exists f, fs_Open nostat_fs ("a" +:+ suffix Gzip) = OK f /\
              encodes decode Gzip (unread f) (bytes "hello")) /\
   ~ exists vf tr', Open decode nostat_fs "a" [] = (OK vf, tr')).
Proof.
  split; (split; [exists (not_found "a"); split; [vm_compute; reflexivity|reflexivity]|]).
  - split.
    + eexists. split; [vm_compute; reflexivity|].
      eexists. split; [vm_compute; reflexivity|]. split; reflexivity.
    + intros (vf & tr' & HOpen & HRead).
      vm_compute in HOpen. injection HOpen as <- <-.
      vm_compute in HRead. discriminate.
  - split.
    + eexists. split; [vm_compute; reflexivity|].
      eexists. split; [vm_compute; reflexivity|]. split; reflexivity.
    + intros (vf & tr' & HOpen). vm_compute in HOpen. discriminate.
Qed.

Lemma ReadDir_passes_through_witness :
  exists out tr',
    ReadDir listing_fs "dir" [] = (OK out, tr') /\
    DirEntry_Name <$> out = ["regular.txt"; "compressed.txt"; "subdir"] /\
    out !! 0 = Some (file_entry "regular.txt" (bytes "regular content")) /\
    out !! 2 = Some (dir_entry "subdir") /\
    count (is_info 2) tr' = 0.
Proof.
  destruct (ReadDir_passes_through listing_fs "dir"
              [ file_entry "regular.txt" (bytes "regular content");
                file_entry "compressed.txt.gz" (compress Gzip (bytes "gzipped content"));
                dir_entry "subdir" ] [])
    as (out & tr' & HRun & _ & Hdirs & Hplain & _).
  - vm_compute; reflexivity.
  - repeat constructor.
  - exists out, tr'. split; [exact HRun|].
    split.
    + vm_compute in HRun. injection HRun as <- <-. reflexivity.
    + split; [apply Hplain; reflexivity|].
      destruct (Hdirs 2 (dir_entry "subdir") eq_refl eq_refl) as [Hout Hcount].
      split; [exact Hout|exact Hcount].
Defined.

(** C7 as stated fails: the underlying listing of [dir] succeeds and
    holds one plain file, without a recognized suffix, whose metadata
    cannot be fetched.  The overlay fetches it all the same, and its
    listing fails with the error of that fetch. *)
Lemma ReadDir_fails_on_plain_file :
  fs_ReadDir broken_fs "dir" = OK [broken_entry "plain.txt"] /\
  DirEntry_IsDir (broken_entry "plain.txt") = false /\
  recognized (DirEntry_Name (broken_entry "plain.txt")) = false /\
  ReadDir broken_fs "dir" [] =
    (Err (PathError "lstat" "plain.txt" ErrNotExist), [EvReadDir "dir"; EvInfo 0]).
Proof. repeat split; vm_compute; reflexivity. Qed.

(** ** Two defects *)

(** C5. A file resolved through [.zst]: the zstd decoder is constructed
    when the file is opened, its type has a [Close] that releases it,
    and [Close] on the file closes the raw handle once and never
    releases the decoder.  The gzip file next to it shows what is
    missing: there the decoder is released before the raw handle is
    closed. *)
Theorem Close_leaves_zstd_decoder :
  exists vf tr1 tr2,
    Open decode one_each_fs "zfile.txt" [] = (OK vf, tr1) /\
    Close vf tr1 = (None, tr2) /\
    In (EvNewReader Zstd 3) tr2 /\
    has_Close Zstd = true /\
    count (is_reader_close 3) tr2 = 0 /\
    count (is_close 3) tr2 = 1 /\
    exists gz tr3 tr4,
      Open decode one_each_fs "compressed.txt" [] = (OK gz, tr3) /\
      Close gz tr3 = (None, tr4) /\
      count (is_reader_close 1) tr4 = 1 /\
      count (is_close 1) tr4 = 1.
Proof.
  eexists _, _, _. split; [vm_compute; reflexivity|].
  split; [vm_compute; reflexivity|].
  split; [vm_compute; tauto|].
  do 3 (split; [reflexivity|]).
  eexists _, _, _. split; [vm_compute; reflexivity|].
  split; [vm_compute; reflexivity|]. split; reflexivity.
Qed.

(** C6. A listing that holds the file [a.bz2.gz]: its name ends with
    [.gz], and with that suffix stripped it is [a.bz2], the name under
    which [Open] resolves the file.  [ReadDir] lists it as [a]: the
    [.bz2] that the first trim uncovers is trimmed as well. *)
Theorem ReadDir_strips_two_suffixes :
  exists info tr,
    fs_ReadDir stacked_fs "dir" =
      OK [file_entry "a.bz2.gz" (compress Gzip (compress Bzip2 (bytes "hello")))] /\
    ReadDir stacked_fs "dir" [] = (OK [WrapperEntry info "a"], tr) /\
    HasSuffix "a.bz2.gz" ".gz" = true /\
    TrimSuffix "a.bz2.gz" ".gz" = "a.bz2" /\
    "a" <> "a.bz2".
Proof.
  eexists _, _. split; [vm_compute; reflexivity|].
  split; [vm_compute; reflexivity|].
  repeat split. discriminate.
Qed.

(** ** The package's tests, on the model *)

Example test_gzip :
  read_through one_each_fs "compressed.txt" = Some (bytes "gzipped", "compressed.txt").
Proof. vm_compute. reflexivity. Qed.

Example test_bzip2 :
  read_through one_each_fs "archive.txt" = Some (bytes "bzip2ed", "archive.txt").
Proof. vm_compute. reflexivity. Qed.

Example test_zstd :
  read_through one_each_fs "zfile.txt" = Some (bytes "zstded", "zfile.txt").
Proof. vm_compute. reflexivity. Qed.

Example test_lz4 :
  read_through one_each_fs "lfile.txt" = Some (bytes "lz4ed", "lfile.txt").
Proof. vm_compute. reflexivity. Qed.

Example test_missing :
  read_through one_each_fs "doesnotexist.txt" = None.
Proof. vm_compute. reflexivity. Qed.

Example test_readdir :
  (fun r => match r with
            | OK out => Some (map (fun e => (DirEntry_Name e, DirEntry_IsDir e)) out)
            | Err _ => None
            end) (fst (ReadDir listing_fs "dir" [])) =
  Some [("regular.txt", false); ("compressed.txt", false); ("subdir", true)].
Proof. vm_compute. reflexivity. Qed.

(** * Further properties of the package *)

(** ** Names *)

Lemma length_substring_0 (s : string) :
  forall n, n <= String.length s -> String.length (substring 0 n s) = n.
Proof.
  induction s as [|a s IH]; intros [|n] Hn; cbn in *; try reflexivity; try lia.
  rewrite IH by lia. reflexivity.
Qed.

Lemma TrimSuffix_length (s suf : string) :
  HasSuffix s suf = true ->
  String.length (TrimSuffix s suf) + String.length suf = String.length s.
Proof.
  intros H. unfold TrimSuffix. rewrite H.
  unfold HasSuffix in H. apply andb_true_iff in H as [Hlen _].
  apply Nat.leb_le in Hlen. rewrite length_substring_0 by lia. lia.
Qed.

Lemma TrimSuffix_le (s suf : string) :
  String.length (TrimSuffix s suf) <= String.length s.
Proof.
  destruct (HasSuffix s suf) eqn:H.
  - pose proof (TrimSuffix_length s suf H). lia.
  - now rewrite TrimSuffix_none.
Qed.

(** A name that [ReadDir] rewrites gets strictly shorter. *)
Lemma strip_all_shorter (name : string) :
  recognized name = true ->
  String.length (strip_all name) < String.length name.
Proof.
  unfold recognized, strip_all. intros Hrec.
  set (n1 := TrimSuffix name ".gz").
  set (n2 := TrimSuffix n1 ".bz2").
  set (n3 := TrimSuffix n2 ".zst").
  pose proof (TrimSuffix_le name ".gz") as L1.
  pose proof (TrimSuffix_le n1 ".bz2") as L2.
  pose proof (TrimSuffix_le n2 ".zst") as L3.
  pose proof (TrimSuffix_le n3 ".lz4") as L4.
  fold n1 in L1. fold n2 in L2. fold n3 in L3.
  destruct (HasSuffix name ".gz") eqn:Hgz.
  { pose proof (TrimSuffix_length _ _ Hgz) as E. fold n1 in E. cbn in E. lia. }
  assert (E1 : n1 = name) by (apply TrimSuffix_none; exact Hgz).
  destruct (HasSuffix name ".bz2") eqn:Hbz.
  { pose proof (TrimSuffix_length _ _ Hbz) as E. rewrite <- E1 in E at 1.
    fold n2 in E. cbn in E. lia. }
  assert (E2 : n2 = name).
  { unfold n2. rewrite E1. now apply TrimSuffix_none. }
  destruct (HasSuffix name ".zst") eqn:Hzs.
  { pose proof (TrimSuffix_length _ _ Hzs) as E. rewrite <- E2 in E at 1.
    fold n3 in E. cbn in E. lia. }
  assert (E3 : n3 = name).
  { unfold n3. rewrite E2. now apply TrimSuffix_none. }
  cbn in Hrec.
  pose proof (TrimSuffix_length _ _ Hrec) as E. rewrite <- E3 in E at 1.
  cbn in E. lia.
Qed.

Section MoreProperties.

Variable decode : Codec -> list byte -> result DecodedStream.
Variable fsys : FS.

(** ** Every run of [Open] *)

Lemma Open_cases (name : string) (tr : Trace) :
  (exists f,
      fs_Open fsys name = OK f /\
      Open decode fsys name tr = (OK (StoreFile f), tr ++ [EvOpen name]))
  \/ (exists err,
      fs_Open fsys name = Err err /\ errors_Is_ErrNotExist err = false /\
      Open decode fsys name tr = (Err err, tr ++ [EvOpen name]))
  \/ (exists err pre c post f,
      fs_Open fsys name = Err err /\ errors_Is_ErrNotExist err = true /\
      probe_order = pre ++ c :: post /\ Forall (fails fsys name) pre /\
      fs_Open fsys (name +:+ suffix c) = OK f /\
      Open decode fsys name tr =
        adapt decode c f (tr ++ EvOpen name :: probes name (pre ++ [c])))
  \/ (exists err,
      fs_Open fsys name = Err err /\ errors_Is_ErrNotExist err = true /\
      Forall (fails fsys name) probe_order /\
      Open decode fsys name tr =
        (Err err, tr ++ EvOpen name :: probes name probe_order)).
Proof.
  destruct (fs_Open fsys name) as [f0|err] eqn:Hlit.
  { left. exists f0. split; [reflexivity|]. now apply Open_literal. }
  destruct (errors_Is_ErrNotExist err) eqn:Hne.
  2: { right; left. exists err. split; [reflexivity|]. split; [assumption|].
       now apply Open_fault. }
  destruct (probe_split fsys name) as [(pre & c & post & f & Hord & Hpre & Hf)|Hall].
  - right; right; left. exists err, pre, c, post, f.
    do 5 (split; [first [reflexivity|assumption]|]).
    eapply Open_probe; eassumption.
  - right; right; right. exists err.
    do 3 (split; [first [reflexivity|assumption]|]).
    now apply Open_exhausted.
Qed.

(** The events an adapter adds, whatever its outcome. *)
Lemma adapt_events (c : Codec) (f : File) (tr : Trace) :
  exists evs,
    snd (adapt decode c f tr) = tr ++ evs /\
    List.filter is_open evs = [] /\
    count is_listing evs = 0 /\
    (is_OK (fst (adapt decode c f tr)) = true ->
       count is_any_close evs = 0 /\ count (is_stat (fid f)) evs = 1).
Proof.
  destruct (adapt_cases decode c f tr)
    as [(e & _ & _ & ->)|[(e & _ & ->)|(raw & df & _ & -> & _)]]; cbn [fst snd is_OK].
  - exists [EvClose (fid f)]. repeat split; discriminate.
  - exists [EvNewReader c (fid f); EvStat (fid f); EvClose (fid f)].
    repeat split; discriminate.
  - exists [EvNewReader c (fid f); EvStat (fid f)].
    repeat split. unfold count. cbn. now rewrite Nat.eqb_refl.
Qed.

Lemma filter_open_probes (name : string) (cs : list Codec) :
  List.filter is_open (probes name cs) = probes name cs.
Proof.
  induction cs as [|c cs IH]; [reflexivity|].
  cbn [probes map List.filter is_open]. f_equal. exact IH.
Qed.

Lemma count_probes (p : Event -> bool) (name : string) (cs : list Codec) :
  (forall path, p (EvOpen path) = false) ->
  count p (probes name cs) = 0.
Proof.
  intros Hp. induction cs as [|c cs IH]; [reflexivity|].
  cbn [probes map]. rewrite count_cons, Hp. exact IH.
Qed.

Lemma probe_order_prefix (pre post : list Codec) (c : Codec) :
  probe_order = pre ++ c :: post ->
  pre ++ [c] = take (S (length pre)) probe_order /\ S (length pre) <= 4.
Proof.
  intros Hord. rewrite Hord.
  assert (Hlen : length (pre ++ c :: post) = 4) by (now rewrite <- Hord).
  rewrite length_app in Hlen. cbn in Hlen. split; [|lia].
  replace (pre ++ c :: post) with ((pre ++ [c]) ++ post) by (now rewrite <- app_assoc).
  rewrite take_app_length'; [reflexivity|]. rewrite length_app. cbn. lia.
Qed.

(** X1. The store calls of [Open]: it opens the literal name first, then
    suffixed variants in registry order without a gap, five opens at
    most, and it never lists a directory. *)
Theorem Open_attempts (name : string) (tr : Trace) :
  exists evs k,
    snd (Open decode fsys name tr) = tr ++ evs /\
    k <= 4 /\
    List.filter is_open evs = EvOpen name :: probes name (take k probe_order) /\
    count is_listing evs = 0.
Proof.
  destruct (Open_cases name tr)
    as [(f & _ & ->)|[(err & _ & _ & ->)|
        [(err & pre & c & post & f & _ & _ & Hord & _ & _ & ->)|
         (err & _ & _ & _ & ->)]]]; cbn [snd].
  - exists [EvOpen name], 0. repeat split; lia.
  - exists [EvOpen name], 0. repeat split; lia.
  - destruct (adapt_events c f (tr ++ EvOpen name :: probes name (pre ++ [c])))
      as (evs & -> & Hopen & Hlist & _).
    destruct (probe_order_prefix _ _ _ Hord) as [Hpre Hk].
    exists (EvOpen name :: probes name (pre ++ [c]) ++ evs), (S (length pre)).
    split; [now rewrite <- app_assoc|]. split; [exact Hk|]. split.
    + cbn [List.filter is_open]. rewrite List.filter_app, Hopen, app_nil_r.
      now rewrite filter_open_probes, Hpre.
    + rewrite count_cons, count_app, Hlist, count_probes by reflexivity.
      reflexivity.
  - exists (EvOpen name :: probes name probe_order), 4.
    split; [reflexivity|]. split; [lia|]. split.
    + cbn [List.filter is_open]. now rewrite filter_open_probes.
    + rewrite count_cons, count_probes by reflexivity. reflexivity.
Qed.

(** X2. A successful [Open] closes nothing, neither a raw handle nor a
    decoder.  For a literal file its only call is the open; for a
    resolved variant it fetches the metadata of the raw handle exactly
    once. *)
Theorem Open_success_closes_nothing (name : string) (tr tr' : Trace) (vf : VFile) :
  Open decode fsys name tr = (OK vf, tr') ->
  exists evs,
    tr' = tr ++ evs /\
    count is_any_close evs = 0 /\
    match vf with
    | StoreFile f => evs = [EvOpen name]
    | DecompressFile df => count (is_stat (fid (originalFS df))) evs = 1
    end.
Proof.
  intros HOpen.
  destruct (Open_cases name tr)
    as [(f & _ & Hrun)|[(err & _ & _ & Hrun)|
        [(err & pre & c & post & f & _ & _ & Hord & _ & _ & Hrun)|
         (err & _ & _ & _ & Hrun)]]]; rewrite Hrun in HOpen; simplify_eq.
  - exists [EvOpen name]. now repeat split.
  - set (tr0 := tr ++ EvOpen name :: probes name (pre ++ [c])) in *.
    destruct (adapt_events c f tr0) as (evs & Hsnd & _ & _ & Hok).
    destruct (adapt_cases decode c f tr0)
      as [(e & _ & _ & Hrun2)|[(e & _ & Hrun2)|
          (raw & df & _ & Hrun2 & _ & Horig & _)]];
      rewrite Hrun2 in HOpen; simplify_eq.
    rewrite Hrun2 in Hsnd, Hok. cbn [fst snd is_OK] in Hsnd, Hok.
    destruct (Hok eq_refl) as [Hclose Hstat].
    exists (EvOpen name :: probes name (pre ++ [c]) ++ evs).
    split; [rewrite Hsnd; unfold tr0; now rewrite <- app_assoc|]. split.
    + rewrite count_cons, count_app, Hclose, count_probes by reflexivity.
      reflexivity.
    + rewrite count_cons, count_app, Hstat, count_probes by reflexivity.
      reflexivity.
Qed.

(** ** Closing a resolved file *)

(** A resolved file is what the adapter of its codec made of its raw
    handle. *)
Lemma Open_resolved_inv (name : string) (tr tr' : Trace) (df : decompressFile) :
  Open decode fsys name tr = (OK (DecompressFile df), tr') ->
  exists tr0,
    adapt decode (rcodec (reader df)) (originalFS df) tr0 =
      (OK (DecompressFile df), tr').
Proof.
  intros HOpen.
  destruct (Open_DecompressFile_inv decode fsys _ _ _ _ HOpen)
    as (err & pre & c & post & f & _ & _ & _ & _ & _ & Hrun).
  set (tr0 := tr ++ EvOpen name :: probes name (pre ++ [c])) in *.
  exists tr0.
  destruct (adapt_cases decode c f tr0)
    as [(e & _ & _ & Hrun')|[(e & _ & Hrun')|
        (raw & df' & _ & Hrun' & _ & Horig & Hcodec & _)]];
    rewrite Hrun' in Hrun; simplify_eq.
  exact Hrun'.
Qed.

Lemma count_close_snoc (h : handle) (tr : Trace) :
  count (is_close h) (tr ++ [EvClose h]) = S (count (is_close h) tr).
Proof.
  rewrite count_app, count_cons. cbn [is_close]. rewrite Nat.eqb_refl.
  cbn. lia.
Qed.

Lemma count_close_reader_snoc (h : handle) (c : Codec) (tr : Trace) :
  count (is_close h) (tr ++ [EvReaderClose c h; EvClose h]) =
    S (count (is_close h) tr).
Proof.
  rewrite count_app, !count_cons. cbn [is_close]. rewrite Nat.eqb_refl.
  cbn. lia.
Qed.

(** X3. [Close] on a file resolved through [.gz]: the decoder is closed
    first and the raw handle after it, each once, whatever the decoder
    answers; the result is the decoder's error if it has one, and the
    raw handle's answer otherwise. *)
Theorem Close_gzip_resolved (name : string) (tr tr' : Trace) (df : decompressFile) :
  Open decode fsys name tr = (OK (DecompressFile df), tr') ->
  rcodec (reader df) = Gzip ->
  forall tr2,
    Close (DecompressFile df) tr2 =
      (match rclose (reader df) with
       | Some e => Some e
       | None => close_at (originalFS df)
                   (count (is_close (fid (originalFS df))) tr2)
       end,
       tr2 ++ [EvReaderClose Gzip (fid (originalFS df));
               EvClose (fid (originalFS df))]).
Proof.
  intros HOpen Hgz tr2.
  destruct (Open_resolved_inv _ _ _ _ HOpen) as [tr0 Hrun].
  rewrite (Close_adapted decode _ _ _ _ _ Hrun). now rewrite Hgz.
Qed.

(** X4. [Close] on a file resolved through [.bz2], [.zst] or [.lz4] makes
    one call, the close of the raw handle, and returns its answer; no
    decoder is closed. *)
Theorem Close_other_resolved (name : string) (tr tr' : Trace) (df : decompressFile) :
  Open decode fsys name tr = (OK (DecompressFile df), tr') ->
  rcodec (reader df) <> Gzip ->
  forall tr2,
    Close (DecompressFile df) tr2 =
      (close_at (originalFS df) (count (is_close (fid (originalFS df))) tr2),
       tr2 ++ [EvClose (fid (originalFS df))]).
Proof.
  intros HOpen Hgz tr2.
  destruct (Open_resolved_inv _ _ _ _ HOpen) as [tr0 Hrun].
  rewrite (Close_adapted decode _ _ _ _ _ Hrun).
  now destruct (rcodec (reader df)).
Qed.

(** X5. [Close] keeps no record of having been called: a second [Close]
    on a resolved file closes the raw handle a second time, and where no
    decoder error takes precedence the two results are the first and the
    second answer of the raw handle. *)
Theorem Close_twice (name : string) (tr tr' : Trace) (df : decompressFile) :
  Open decode fsys name tr = (OK (DecompressFile df), tr') ->
  forall tr2,
    let f := originalFS df in
    let k := count (is_close (fid f)) tr2 in
    exists r1 r2 tr3 tr4,
      Close (DecompressFile df) tr2 = (r1, tr3) /\
      Close (DecompressFile df) tr3 = (r2, tr4) /\
      count (is_close (fid f)) tr4 = k + 2 /\
      (rclose (reader df) = None \/ rcodec (reader df) <> Gzip ->
         r1 = close_at f k /\ r2 = close_at f (S k)).
Proof.
  intros HOpen tr2 f k.
  destruct (Open_resolved_inv _ _ _ _ HOpen) as [tr0 Hrun].
  pose proof (Close_adapted decode _ _ _ _ _ Hrun) as HClose.
  subst f k. destruct (rcodec (reader df)) eqn:Hc.
  1: { eexists _, _, _, _. split; [apply HClose|]. split; [apply HClose|].
       rewrite !count_close_reader_snoc. split; [lia|].
       intros [Hnone|Hne]; [now rewrite Hnone|congruence]. }
  all: eexists _, _, _, _; (split; [apply HClose|]); (split; [apply HClose|]);
    rewrite !count_close_snoc; split; [lia|]; intros _; split; reflexivity.
Qed.

(** ** Malformed variants *)

(** X6. A gzip or zstd variant that its decoder rejects makes [Open] fail
    with the decoder's error: the raw handle is closed, its metadata is
    not fetched, and the suffixes after it are not tried, whatever the
    store holds under them. *)
Theorem Open_eager_decode_fault (name : string) (err : error)
    (pre post : list Codec) (c : Codec) (f : File) (tr : Trace) (e : error) :
  fs_Open fsys name = Err err ->
  errors_Is_ErrNotExist err = true ->
  probe_order = pre ++ c :: post ->
  Forall (fails fsys name) pre ->
  fs_Open fsys (name +:+ suffix c) = OK f ->
  eager c = true ->
  decode c (unread f) = Err e ->
  Open decode fsys name tr =
    (Err e, tr ++ EvOpen name :: probes name (pre ++ [c]) ++ [EvClose (fid f)]).
Proof.
  intros Hlit Hne Hord Hpre Hf Hc Hdec.
  rewrite (Open_probe decode fsys _ _ _ _ _ _ _ Hlit Hne Hord Hpre Hf).
  rewrite (adapt_eager_fault decode _ _ _ _ Hc Hdec). now rewrite <- app_assoc.
Qed.

(** X7. For a bzip2 or lz4 variant the content plays no part in whether
    [Open] succeeds: the constructors of these decoders have no error
    result, so with the first variant that opens being one of them,
    [Open] succeeds when the metadata fetch on the raw handle succeeds
    and fails with the error of that fetch otherwise, whatever the
    decoder makes of the source. *)
Theorem Open_lazy_outcome (name : string) (err : error)
    (pre post : list Codec) (c : Codec) (f : File) (tr : Trace) :
  fs_Open fsys name = Err err ->
  errors_Is_ErrNotExist err = true ->
  probe_order = pre ++ c :: post ->
  Forall (fails fsys name) pre ->
  fs_Open fsys (name +:+ suffix c) = OK f ->
  eager c = false ->
  let tr0 := tr ++ EvOpen name :: probes name (pre ++ [c]) in
  match stat_at f (count (is_stat (fid f)) tr) with
  | OK raw =>
      exists df,
        Open decode fsys name tr =
          (OK (DecompressFile df), tr0 ++ [EvNewReader c (fid f); EvStat (fid f)]) /\
        originalFS df = f
  | Err e =>
      Open decode fsys name tr =
        (Err e, tr0 ++ [EvNewReader c (fid f); EvStat (fid f); EvClose (fid f)])
  end.
Proof.
  intros Hlit Hne Hord Hpre Hf Hc tr0.
  rewrite (Open_probe decode fsys _ _ _ _ _ _ _ Hlit Hne Hord Hpre Hf).
  fold tr0.
  assert (Hcons : decoder_constructs decode c f)
    by (unfold decoder_constructs; congruence).
  assert (Hcount : count (is_stat (fid f)) tr0 = count (is_stat (fid f)) tr)
    by (unfold tr0; apply count_stat_probes).
  destruct (stat_at f (count (is_stat (fid f)) tr)) as [raw|e] eqn:Hstat.
  - rewrite <- Hcount in Hstat.
    destruct (adapt_success decode c f tr0 raw Hcons Hstat)
      as (df & Hrun & _ & Horig & _).
    now exists df.
  - rewrite <- Hcount in Hstat.
    now apply adapt_stat_fault.
Qed.

(** ** The earlier revision *)

(** X8. Whatever the earlier revision of [Open], which knows [.gz] and
    [.bz2] only, resolves, the current [Open] resolves in the same way:
    the same file and the same calls on the store. *)
Theorem Earlier_Open_preserved (name : string) (tr : Trace) :
  is_OK (fst (Earlier.Open decode fsys name tr)) = true ->
  Open decode fsys name tr = Earlier.Open decode fsys name tr.
Proof.
  unfold Open, Earlier.Open, FS_Open, emit, mbind, M_bind, mret, M_ret.
  destruct (fs_Open fsys name) as [f|err]; [reflexivity|].
  destruct (errors_Is_ErrNotExist err); [|reflexivity].
  destruct (fs_Open fsys (name +:+ ".gz")) as [gz|e1]; [reflexivity|].
  destruct (fs_Open fsys (name +:+ ".bz2")) as [bz|e2]; [reflexivity|].
  cbn. discriminate.
Qed.

(** ** Rewriting metadata more than once *)

(** X9. Metadata rewritten any number of times in a row has the name
    given last and, in every other field, the value of the metadata the
    first rewrite started from. *)
Theorem modifyFileInfo_chain (names : list string) :
  forall (info : FileInfo) (final : string),
    let fi := fold_left modifyFileInfo (names ++ [final]) info in
    Name fi = final /\
    Size fi = Size info /\
    Mode fi = Mode info /\
    ModTime fi = ModTime info /\
    IsDir fi = IsDir info /\
    Sys fi = Sys info.
Proof.
  induction names as [|n names IH]; intros info final; cbn.
  - now repeat split.
  - destruct (IH (modifyFileInfo info n) final) as (H1 & H2 & H3 & H4 & H5 & H6).
    now repeat split.
Qed.

(** ** Listings that fail, and what a listing consults *)

(** The loop stops at the first entry whose metadata cannot be fetched. *)
Lemma ReadDir_loop_err (pre post : list DirEntry) (e : DirEntry) (err : error) :
  Forall info_available pre ->
  DirEntry_IsDir e = false ->
  info_result e = Err err ->
  forall (i : nat) (entries : list DirEntry) (tr : Trace),
    ReadDir_loop (pre ++ e :: post) i entries tr =
      (Err err, tr ++ info_events i pre ++ [EvInfo (i + length pre)]).
Proof.
  intros Hpre Hdir Herr.
  induction pre as [|p pre IH]; intros i entries tr.
  - cbn [app ReadDir_loop info_events length]. rewrite Hdir.
    unfold DirEntry_Info, emit, mbind, M_bind, mret, M_ret. rewrite Herr.
    now rewrite Nat.add_0_r.
  - apply Forall_cons in Hpre as [Hp Hpre]. specialize (IH Hpre).
    cbn [app ReadDir_loop info_events length].
    replace (i + S (length pre)) with (S i + length pre) by lia.
    destruct (DirEntry_IsDir p) eqn:Hpdir.
    + now rewrite IH.
    + unfold DirEntry_Info, emit, mbind, M_bind, mret, M_ret.
      specialize (Hp Hpdir).
      destruct (info_result p) as [fi|e']; [|discriminate].
      destruct (recognized (DirEntry_Name p)); rewrite IH;
        now rewrite <- !app_assoc.
Qed.

(** A listing either has all the metadata it will be asked for, or has
    a first entry without. *)
Lemma info_available_split (entries : list DirEntry) :
  Forall info_available entries \/
  exists pre e post err,
    entries = pre ++ e :: post /\ Forall info_available pre /\
    DirEntry_IsDir e = false /\ info_result e = Err err.
Proof.
  induction entries as [|e entries IH]; [left; constructor|].
  destruct (DirEntry_IsDir e) eqn:Hdir.
  - destruct IH as [Hall|(pre & e' & post & err & -> & Hpre & Hd & He)].
    + left. constructor; [|exact Hall]. unfold info_available. congruence.
    + right. exists (e :: pre), e', post, err. repeat split; try assumption.
      constructor; [|exact Hpre]. unfold info_available. congruence.
  - destruct (info_result e) as [fi|err] eqn:Hinfo.
    + destruct IH as [Hall|(pre & e' & post & err & -> & Hpre & Hd & He)].
      * left. constructor; [|exact Hall]. unfold info_available. now rewrite Hinfo.
      * right. exists (e :: pre), e', post, err. repeat split; try assumption.
        constructor; [|exact Hpre]. unfold info_available. now rewrite Hinfo.
    + right. exists [], e, entries, err. repeat split; try assumption. constructor.
Qed.

Lemma info_events_only_info (entries : list DirEntry) :
  forall i, Forall (fun ev => exists j, ev = EvInfo j) (info_events i entries).
Proof.
  induction entries as [|e entries IH]; intros i; cbn [info_events]; [constructor|].
  apply Forall_app. split; [|apply IH].
  destruct (DirEntry_IsDir e); repeat constructor. now exists i.
Qed.

(** X10. A listing stops at the first entry, not a directory, whose
    metadata cannot be fetched: [ReadDir] returns the error of that
    fetch and no entries, and the entries after it are not consulted. *)
Theorem ReadDir_first_info_error (name : string) (pre post : list DirEntry)
    (e : DirEntry) (err : error) (tr : Trace) :
  fs_ReadDir fsys name = OK (pre ++ e :: post) ->
  Forall info_available pre ->
  DirEntry_IsDir e = false ->
  info_result e = Err err ->
  ReadDir fsys name tr =
    (Err err,
     tr ++ EvReadDir name :: info_events 0 pre ++ [EvInfo (length pre)]).
Proof.
  intros Hdir Hpre He Herr.
  unfold ReadDir, FS_ReadDir, emit, mbind, M_bind, mret, M_ret. rewrite Hdir.
  rewrite (ReadDir_loop_err pre post e err Hpre He Herr).
  now rewrite <- app_assoc.
Qed.

(** X11. [ReadDir] succeeds exactly when the store's listing succeeds and
    the metadata of every entry that is not a directory can be fetched,
    also of the entries whose name it then leaves as it is. *)
Theorem ReadDir_succeeds_iff (name : string) (tr : Trace) :
  (exists out tr', ReadDir fsys name tr = (OK out, tr')) <->
  (exists entries,
      fs_ReadDir fsys name = OK entries /\ Forall info_available entries).
Proof.
  split.
  - intros (out & tr' & Hrun).
    destruct (fs_ReadDir fsys name) as [entries|err] eqn:Hdir.
    + exists entries. split; [reflexivity|].
      destruct (info_available_split entries)
        as [Hall|(pre & e & post & err & -> & Hpre & Hd & He)]; [exact Hall|].
      unfold ReadDir, FS_ReadDir, emit, mbind, M_bind, mret, M_ret in Hrun.
      rewrite Hdir, (ReadDir_loop_err pre post e err Hpre Hd He) in Hrun.
      discriminate.
    + rewrite (ReadDir_store_error fsys _ _ _ Hdir) in Hrun. discriminate.
  - intros (entries & Hdir & Hall).
    eexists _, _. eapply ReadDir_ok; eassumption.
Qed.

(** Every metadata fetch of a walk is on an entry that is not a
    directory. *)
Lemma info_events_nondir (entries : list DirEntry) :
  forall i,
    Forall (fun ev => exists k e,
              ev = EvInfo (i + k) /\ entries !! k = Some e /\
              DirEntry_IsDir e = false)
           (info_events i entries).
Proof.
  induction entries as [|e0 entries IH]; intros i; cbn [info_events]; [constructor|].
  apply Forall_app. split.
  - destruct (DirEntry_IsDir e0) eqn:Hdir; repeat constructor.
    exists 0, e0. now rewrite Nat.add_0_r.
  - eapply Forall_impl; [apply (IH (S i))|].
    intros ev (k & e & -> & Hk & Hd). exists (S k), e.
    split; [f_equal; lia|]. now split.
Qed.

(** X12. Whether it succeeds or fails, [ReadDir] makes one call of the
    library's [fs.ReadDir] for the directory and after it only [Info]
    calls, each on an entry of that listing that is not a directory.
    [ReadDir] itself opens, stats, reads and closes nothing; what the
    library call does on the store to obtain the listing is not part of
    this statement. *)
Theorem ReadDir_only_lists (name : string) (tr : Trace) :
  exists evs,
    snd (ReadDir fsys name tr) = tr ++ EvReadDir name :: evs /\
    Forall (fun ev => exists i e entries,
              ev = EvInfo i /\
              fs_ReadDir fsys name = OK entries /\
              entries !! i = Some e /\
              DirEntry_IsDir e = false) evs.
Proof.
  destruct (fs_ReadDir fsys name) as [entries|err] eqn:Hdir.
  - destruct (info_available_split entries)
      as [Hall|(pre & e & post & err & -> & Hpre & Hd & He)].
    + rewrite (ReadDir_ok fsys _ _ _ Hdir Hall). cbn [snd].
      eexists. split; [reflexivity|].
      eapply Forall_impl; [apply (info_events_nondir entries 0)|].
      intros ev (k & e & -> & Hk & Hnd). now exists k, e, entries.
    + unfold ReadDir, FS_ReadDir, emit, mbind, M_bind, mret, M_ret.
      rewrite Hdir, (ReadDir_loop_err pre post e err Hpre Hd He). cbn [snd].
      rewrite <- app_assoc. cbn [app].
      eexists. split; [reflexivity|].
      apply Forall_app. split.
      * eapply Forall_impl; [apply (info_events_nondir pre 0)|].
        intros ev (k & e' & -> & Hk & Hnd). exists k, e', (pre ++ e :: post).
        repeat split; try assumption.
        rewrite lookup_app_l; [exact Hk|]. now apply lookup_lt_Some in Hk.
      * repeat constructor. exists (length pre), e, (pre ++ e :: post).
        repeat split; try assumption. apply list_lookup_middle. reflexivity.
  - rewrite (ReadDir_store_error fsys _ _ _ Hdir). cbn [snd].
    exists []. split; [reflexivity|constructor].
Qed.

(** ** What a listing shows *)

(** X13. A file whose name is a base without recognized suffix followed by
    one recognized suffix is listed, at its position, under the base
    name; the entry shows the directory flag and the mode of the file's
    metadata. *)
Theorem ReadDir_single_suffix (name : string) (entries : list DirEntry) (tr : Trace)
    (i : nat) (e : DirEntry) (base : string) (c : Codec) :
  fs_ReadDir fsys name = OK entries ->
  Forall info_available entries ->
  entries !! i = Some e ->
  DirEntry_IsDir e = false ->
  DirEntry_Name e = base +:+ suffix c ->
  recognized base = false ->
  exists out tr' fi w,
    ReadDir fsys name tr = (OK out, tr') /\
    info_result e = OK fi /\
    out !! i = Some w /\
    DirEntry_Name w = base /\
    DirEntry_IsDir w = IsDir fi /\
    DirEntry_Type w = Mode fi.
Proof.
  intros Hdir Hall Hi He Hname Hbase.
  pose proof (Forall_lookup_1 _ _ _ _ Hall Hi He) as Hav.
  destruct (info_result e) as [fi|err] eqn:Hfi; [|discriminate].
  destruct (rewritten_single_suffix e base c fi He Hname Hbase Hfi) as [Hrw _].
  exists (rewritten <$> entries), (tr ++ EvReadDir name :: info_events 0 entries),
    fi, (WrapperEntry fi base).
  split; [now apply ReadDir_ok|]. split; [reflexivity|]. split.
  - now rewrite list_lookup_fmap, Hi, <- Hrw.
  - now repeat split.
Qed.

(** X14. The metadata of a rewritten entry is the store's, untouched: its
    [Info] never fails and answers with the value the store gave,
    whose name still is the one with the suffix, so that the entry and
    its metadata disagree on the name. *)
Theorem ReadDir_entry_Info_keeps_name (name : string) (entries : list DirEntry)
    (tr : Trace) (i : nat) (e : DirEntry) (fi : FileInfo) :
  fs_ReadDir fsys name = OK entries ->
  Forall info_available entries ->
  entries !! i = Some e ->
  DirEntry_IsDir e = false ->
  recognized (DirEntry_Name e) = true ->
  info_result e = OK fi ->
  Name fi = DirEntry_Name e ->
  exists out tr' w,
    ReadDir fsys name tr = (OK out, tr') /\
    out !! i = Some w /\
    (forall j tr2, DirEntry_Info j w tr2 = (OK fi, tr2 ++ [EvInfo j])) /\
    Name fi <> DirEntry_Name w.
Proof.
  intros Hdir Hall Hi He Hrec Hfi Hname.
  exists (rewritten <$> entries), (tr ++ EvReadDir name :: info_events 0 entries),
    (WrapperEntry fi (strip_all (DirEntry_Name e))).
  split; [now apply ReadDir_ok|]. split.
  - rewrite list_lookup_fmap, Hi. cbn. unfold rewritten. now rewrite He, Hfi, Hrec.
  - split; [reflexivity|]. cbn [DirEntry_Name]. rewrite Hname.
    pose proof (strip_all_shorter _ Hrec) as Hlt.
    intros Heq. rewrite <- Heq in Hlt. lia.
Qed.

(** X15. Nothing is merged: where a directory holds a plain file and next
    to it a file of the same name with a recognized suffix, the listing
    has both, under the same name. *)
Theorem ReadDir_keeps_twins (name : string) (entries : list DirEntry) (tr : Trace)
    (i j : nat) (plain packed : DirEntry) (base : string) (c : Codec) :
  fs_ReadDir fsys name = OK entries ->
  Forall info_available entries ->
  entries !! i = Some plain ->
  entries !! j = Some packed ->
  DirEntry_IsDir plain = false ->
  DirEntry_IsDir packed = false ->
  DirEntry_Name plain = base ->
  DirEntry_Name packed = base +:+ suffix c ->
  recognized base = false ->
  exists out tr',
    ReadDir fsys name tr = (OK out, tr') /\
    length out = length entries /\
    i <> j /\
    DirEntry_Name <$> (out !! i) = Some base /\
    DirEntry_Name <$> (out !! j) = Some base.
Proof.
  intros Hdir Hall Hi Hj Hpl Hpk Hnpl Hnpk Hbase.
  exists (rewritten <$> entries), (tr ++ EvReadDir name :: info_events 0 entries).
  split; [now apply ReadDir_ok|]. split; [apply length_fmap|]. split.
  { intros ->. rewrite Hi in Hj. injection Hj as <-.
    rewrite Hnpl in Hnpk.
    assert (H : recognized (base +:+ suffix c) = false)
      by (rewrite <- Hnpk; exact Hbase).
    rewrite recognized_app in H. discriminate. }
  rewrite !list_lookup_fmap, Hi, Hj. cbn. split.
  - unfold rewritten. rewrite Hpl, Hnpl, Hbase.
    destruct (info_result plain); cbn; now rewrite Hnpl.
  - pose proof (Forall_lookup_1 _ _ _ _ Hall Hj Hpk) as Hav.
    destruct (info_result packed) as [fi|err] eqn:Hfi; [|discriminate].
    destruct (rewritten_single_suffix packed base c fi Hpk Hnpk Hbase Hfi) as [-> _].
    reflexivity.
Qed.

End MoreProperties.

(** ** The further properties on the sample stores *)

Import Cases.

Lemma Open_success_closes_nothing_witness :
  exists vf tr' evs,
    Open decode zst_fs "a" [] = (OK vf, tr') /\
    tr' = [] ++ evs /\
    count is_any_close evs = 0 /\
    length evs = 6.
Proof.
  eexists _, _. 
  destruct (Open_success_closes_nothing decode zst_fs "a" [] _ _ eq_refl)
    as (evs & Htr & Hclose & _).
  exists evs. split; [reflexivity|]. split; [exact Htr|]. split; [exact Hclose|].
  cbn [app] in Htr. now rewrite <- Htr.
Defined.

Lemma Close_gzip_resolved_witness :
  exists df tr',
    Open decode_bad_close bad_close_fs "a" [] = (OK (DecompressFile df), tr') /\
    close_at (originalFS df) 0 = Some ErrPermission /\
    Close (DecompressFile df) tr' =
      (Some (ErrCodec "decoder close"), tr' ++ [EvReaderClose Gzip 1; EvClose 1]).
Proof.
  eexists _, _. split; [vm_compute; reflexivity|]. split; [reflexivity|].
  exact (Close_gzip_resolved decode_bad_close bad_close_fs "a" [] _ _
           eq_refl eq_refl _).
Defined.

Lemma Close_other_resolved_witness :
  exists df tr',
    Open decode zst_fs "a" [] = (OK (DecompressFile df), tr') /\
    rcodec (reader df) = Zstd /\
    Close (DecompressFile df) tr' = (None, tr' ++ [EvClose 1]).
Proof.
  eexists _, _. split; [vm_compute; reflexivity|]. split; [reflexivity|].
  refine (Close_other_resolved decode zst_fs "a" [] _ _ eq_refl _ _).
  discriminate.
Defined.

Lemma Close_twice_witness :
  exists df tr' tr3 tr4,
    Open decode late_fs "a" [] = (OK (DecompressFile df), tr') /\
    Close (DecompressFile df) tr' = (None, tr3) /\
    Close (DecompressFile df) tr3 = (Some ErrClosed, tr4) /\
    count (is_close 2) tr4 = 2.
Proof.
  eexists _, _.
  destruct (Close_twice decode late_fs "a" [] _ _ eq_refl
              [EvOpen "a"; EvOpen "a.gz"; EvOpen "a.bz2"; EvNewReader Bzip2 2; EvStat 2])
    as (r1 & r2 & tr3 & tr4 & H1 & H2 & Hcount & Hr).
  destruct Hr as [-> ->]; [right; discriminate|].
  exists tr3, tr4. split; [reflexivity|].
  split; [exact H1|]. split; [exact H2|exact Hcount].
Defined.

Lemma Open_eager_decode_fault_witness :
  is_OK (fs_Open malformed_gz_fs "a.bz2") = true /\
  Open decode malformed_gz_fs "a" [] =
    (Err (ErrCodec "invalid header"), [EvOpen "a"; EvOpen "a.gz"; EvClose 1]).
Proof.
  split; [vm_compute; reflexivity|].
  refine (Open_eager_decode_fault decode malformed_gz_fs "a" (not_found "a")
            [] [Bzip2; Zstd; Lz4] Gzip (file 1 "a.gz" (bytes "not gzip")) [] _
            _ _ _ _ _ _ _).
  - vm_compute; reflexivity.
  - reflexivity.
  - reflexivity.
  - constructor.
  - vm_compute; reflexivity.
  - reflexivity.
  - vm_compute; reflexivity.
Defined.

Lemma Open_lazy_outcome_witness :
  decode Bzip2 (bytes "not bzip2") = Err (ErrCodec "invalid header") /\
  (exists df,
     Open decode malformed_bz2_fs "a" [] =
       (OK (DecompressFile df),
        [EvOpen "a"; EvOpen "a.gz"; EvOpen "a.bz2"; EvNewReader Bzip2 1; EvStat 1]) /\
     originalFS df = file 1 "a.bz2" (bytes "not bzip2")) /\
  Open decode nostat_lz4_fs "a" [] =
    (Err ErrPermission,
     [EvOpen "a"; EvOpen "a.gz"; EvOpen "a.bz2"; EvOpen "a.zst"; EvOpen "a.lz4";
      EvNewReader Lz4 4; EvStat 4; EvClose 4]).
Proof.
  split; [vm_compute; reflexivity|]. split.
  - refine (Open_lazy_outcome decode malformed_bz2_fs "a" (not_found "a")
              [Gzip] [Zstd; Lz4] Bzip2 (file 1 "a.bz2" (bytes "not bzip2")) []
              _ _ _ _ _ _).
    + vm_compute; reflexivity.
    + reflexivity.
    + reflexivity.
    + constructor; [vm_compute; reflexivity|constructor].
    + vm_compute; reflexivity.
    + reflexivity.
  - refine (Open_lazy_outcome decode nostat_lz4_fs "a" (not_found "a")
              [Gzip; Bzip2; Zstd] [] Lz4
              (file_nostat 4 (compress Lz4 (bytes "hello"))) []
              _ _ _ _ _ _).
    + vm_compute; reflexivity.
    + reflexivity.
    + reflexivity.
    + repeat constructor.
    + vm_compute; reflexivity.
    + reflexivity.
Defined.

Lemma Earlier_Open_preserved_witness :
  is_OK (fst (Earlier.Open decode late_fs "a" [])) = true /\
  Open decode late_fs "a" [] = Earlier.Open decode late_fs "a" [].
Proof.
  assert (H : is_OK (fst (Earlier.Open decode late_fs "a" [])) = true)
    by (vm_compute; reflexivity).
  split; [exact H|]. exact (Earlier_Open_preserved decode late_fs "a" [] H).
Defined.

Lemma ReadDir_first_info_error_witness :
  ReadDir half_broken_fs "dir" [] =
    (Err (PathError "lstat" "second.txt" ErrNotExist),
     [EvReadDir "dir"; EvInfo 0; EvInfo 2]).
Proof.
  refine (ReadDir_first_info_error half_broken_fs "dir"
            [ file_entry "first.gz" (compress Gzip (bytes "one")); dir_entry "sub" ]
            [ file_entry "third.gz" (compress Gzip (bytes "three")) ]
            (broken_entry "second.txt") _ [] _ _ _ _).
  - vm_compute; reflexivity.
  - repeat constructor.
  - reflexivity.
  - reflexivity.
Defined.

Lemma ReadDir_single_suffix_witness :
  exists out tr' fi w,
    ReadDir listing_fs "dir" [] = (OK out, tr') /\
    info_result (file_entry "compressed.txt.gz"
                   (compress Gzip (bytes "gzipped content"))) = OK fi /\
    out !! 1 = Some w /\
    DirEntry_Name w = "compressed.txt" /\
    DirEntry_IsDir w = IsDir fi /\
    DirEntry_Type w = Mode fi.
Proof.
  refine (ReadDir_single_suffix listing_fs "dir" _ [] 1 _ "compressed.txt" Gzip
            _ _ _ _ _ _).
  - vm_compute; reflexivity.
  - repeat constructor.
  - reflexivity.
  - reflexivity.
  - reflexivity.
  - reflexivity.
Defined.

Lemma ReadDir_entry_Info_keeps_name_witness :
  exists out tr' w,
    ReadDir listing_fs "dir" [] = (OK out, tr') /\
    out !! 1 = Some w /\
    (forall j tr2,
        DirEntry_Info j w tr2 =
          (OK (info_of "compressed.txt.gz" (compress Gzip (bytes "gzipped content"))),
           tr2 ++ [EvInfo j])) /\
    Name (info_of "compressed.txt.gz" (compress Gzip (bytes "gzipped content")))
      <> DirEntry_Name w.
Proof.
  refine (ReadDir_entry_Info_keeps_name listing_fs "dir" _ [] 1 _ _
            _ _ _ _ _ _ _).
  - vm_compute; reflexivity.
  - repeat constructor.
  - reflexivity.
  - reflexivity.
  - reflexivity.
  - reflexivity.
  - reflexivity.
Defined.

Lemma ReadDir_keeps_twins_witness :
  exists out tr',
    ReadDir twins_fs "dir" [] = (OK out, tr') /\
    length out = 2 /\
    0 <> 1 /\
    DirEntry_Name <$> (out !! 0) = Some "a.txt" /\
    DirEntry_Name <$> (out !! 1) = Some "a.txt".
Proof.
  refine (ReadDir_keeps_twins twins_fs "dir" twins [] 0 1 _ _ "a.txt" Gzip
            _ _ _ _ _ _ _ _ _).
  - vm_compute; reflexivity.
  - repeat constructor.
  - reflexivity.
  - reflexivity.
  - reflexivity.
  - reflexivity.
  - reflexivity.
  - reflexivity.
  - reflexivity.
Defined.
